(** * A shallow embedding of [core.py], the scheduler of the event loop

    The file follows [core.py] top to bottom: the values a task can hand to
    the loop, the directive classes, the clock and the timed queue the loop
    is built on, the methods of [EventLoop], and finally [run_forever] and
    [run_until_complete].  Python code with effects is written in a small
    state-and-exception monad over the state of the interpreter. *)

From Stdlib Require Import ZArith Lia Bool SpecFloat.
From stdpp Require Import base option list.

Local Open Scope Z_scope.

(** ** Python values *)

(** The classes declared at the end of [core.py].  [SysCall] is the root,
    [SysCall1] its one-argument refinement; everything a task yields as a
    directive is an instance of one of the others. *)
Inductive cls :=
  | SysCall | SysCall1
  | StopLoop | IORead | IOWrite | IOReadDone | IOWriteDone
  | SleepMs | Sleep | AfterMs | After | When.

#[global] Instance cls_eq_dec : EqDecision cls.
Proof. solve_decision. Defined.

(** [class C(B)]: the base class of each class. *)
Definition base (c : cls) : option cls :=
  match c with
  | SysCall => None
  | SysCall1 => Some SysCall
  | StopLoop | IORead | IOWrite | IOReadDone | IOWriteDone => Some SysCall1
  | SleepMs => Some SysCall1
  | Sleep => Some SleepMs
  | AfterMs => Some SleepMs
  | After => Some AfterMs
  | When => Some SleepMs
  end.

(** The chain of base classes; the hierarchy is four levels deep. *)
Fixpoint mro_upto (n : nat) (c : cls) : list cls :=
  match n with
  | O => [c]
  | S n' => c :: match base c with Some b => mro_upto n' b | None => [] end
  end.

Definition mro (c : cls) : list cls := mro_upto 4 c.

Definition issubclass (c d : cls) : bool := bool_decide (d ∈ mro c).

(** The fragment of Python values that reaches the loop: what a task may
    yield, what sits in the queues and what the public methods receive.
    Floats are binary64 numbers ([spec_float] with 53 bits of precision);
    functions and generators are references, [VFun f] into the functions of
    the platform and [VGen g] into the store of generators; [VObj c a] is an
    instance of class [c] whose attribute [arg] holds [a]. *)
#[warnings="-register-all"]
Inductive pyval :=
  | VNone
  | VInt (n : Z)
  | VFloat (x : spec_float)
  | VTuple (vs : list pyval)
  | VList (vs : list pyval)
  | VFun (f : nat)
  | VGen (g : nat)
  | VObj (c : cls) (arg : pyval).

Definition isinstance (v : pyval) (c : cls) : bool :=
  match v with
  | VObj k _ => issubclass k c
  | _ => false
  end.

(** [callable(v)]: functions, and the instances of [SleepMs] and of its
    subclasses, which define [__call__]. *)
Definition callable (v : pyval) : bool :=
  match v with
  | VFun _ => true
  | VObj k _ => issubclass k SleepMs
  | _ => false
  end.

(** Truth value of a Python object, as [if v:] and [not v] take it. *)
Definition truthy (v : pyval) : bool :=
  match v with
  | VNone => false
  | VInt n => negb (n =? 0)
  | VFloat (S754_zero _) => false
  | VFloat _ => true
  | VTuple vs | VList vs => match vs with [] => false | _ => true end
  | VFun _ | VGen _ | VObj _ _ => true
  end.

(** ** Exceptions *)

(** The two assertions of [run_forever] and the one on [When]. *)
Inductive assert_msg :=
  | BadWhenArgument      (* "Argument to 'when' must be a function or method." *)
  | UnknownSyscall       (* "Unknown syscall yielded: %r (of type %r)" *)
  | UnsupportedYield.    (* "Unsupported coroutine yield value: %r (of type %r)" *)

Inductive exn :=
  | StopIteration
  | AssertionError (m : assert_msg)
  | TypeError
  | IndexError
  | ValueError
  | OverflowError
  | QueueFull
  | UserException (n : nat).

#[global] Instance assert_msg_eq_dec : EqDecision assert_msg.
Proof. solve_decision. Defined.
#[global] Instance exn_eq_dec : EqDecision exn.
Proof. solve_decision. Defined.

(** ** Numbers: [int(x * 1000)] *)

Definition prec : Z := 53.
Definition emax : Z := 1024.

(** The float [1000.0]. *)
Definition f1000 : spec_float := S754_finite false 1000 0.

(** [int(x)] on a float: the integer part, towards zero; infinities and
    NaN have none. *)
Definition float_int (x : spec_float) : exn + Z :=
  match x with
  | S754_zero _ => inr 0
  | S754_finite s m e =>
      let a := if 0 <=? e then Z.shiftl (Z.pos m) e else Z.shiftr (Z.pos m) (- e) in
      inr (if s then - a else a)
  | S754_infinity _ => inl OverflowError
  | S754_nan => inl ValueError
  end.

(** [int(secs * 1000)], for the seconds arguments of the loop: an integer is
    multiplied exactly, a float is multiplied in binary64 and then cut.
    A sequence times 1000 is a sequence, which [int] refuses, as it does
    every other value here. *)
Definition int_mul_1000 (secs : pyval) : exn + Z :=
  match secs with
  | VInt n => inr (n * 1000)
  | VFloat x => float_int (SFmul prec emax x f1000)
  | _ => inl TypeError
  end.

(** An argument that must be an integer ([ticks_add], [sleep_ms]). *)
Definition as_int (v : pyval) : exn + Z :=
  match v with
  | VInt n => inr n
  | _ => inl TypeError
  end.

(** [v[i]] on the sequences of the model. *)
Definition getitem (v : pyval) (i : nat) : exn + pyval :=
  match v with
  | VTuple vs | VList vs =>
      match vs !! i with Some x => inr x | None => inl IndexError end
  | _ => inl TypeError
  end.

(** [v[i] = x]: lists only, and only inside their bounds. *)
Definition setitem (v : pyval) (i : nat) (x : pyval) : exn + pyval :=
  match v with
  | VList vs =>
      if decide (i < length vs)%nat then inr (VList (<[i := x]> vs)) else inl IndexError
  | _ => inl TypeError
  end.

(** ** The platform: clock width and user functions *)

(** What the loop takes from outside the file: the width of the tick
    counter of [utime], and the plain functions of the user program, which
    the loop calls as callbacks and as [When] predicates.  A function acts
    on the state of the user program, [Env], and returns or raises. *)
Class Platform := {
  ticks_bits : Z;
  Env : Type;
  call_function : nat -> list pyval -> Env -> (exn + pyval) * Env
}.

(** Modelled from the spec: the clock helpers of [utime] (section 4.1):
    [add(t, d) = (t + d) mod 2^W], and [diff(a, b)] the signed distance in
    [[-2^(W-1), 2^(W-1))]. *)
Definition ticks_add `{Platform} (t d : Z) : Z := (t + d) mod 2 ^ ticks_bits.

Definition ticks_diff `{Platform} (a b : Z) : Z :=
  (a - b + 2 ^ (ticks_bits - 1)) mod 2 ^ ticks_bits - 2 ^ (ticks_bits - 1).

(** ** The timed queue *)

(** An entry of a queue: [(time, callback, args)]. *)
Record entry := Entry { e_time : Z; e_cb : pyval; e_args : pyval }.

(** Modelled from the spec: [utimeq] (section 4.2), a queue of fixed
    capacity ordered by the wraparound-aware comparison of the keys, ties in
    insertion order.  The heap is kept as the list of its entries in the
    order in which they leave. *)
Record utimeq := Utimeq { alloc : Z; items : list entry }.

Definition utimeq_new (n : Z) : utimeq := Utimeq n [].

Definition utimeq_len (h : utimeq) : Z := Z.of_nat (length (items h)).

(** [if self.q:] *)
Definition utimeq_nonempty (h : utimeq) : bool :=
  match items h with [] => false | _ => true end.

Fixpoint heap_insert `{Platform} (e : entry) (l : list entry) : list entry :=
  match l with
  | [] => [e]
  | x :: l' =>
      if 0 <? ticks_diff (e_time x) (e_time e) then e :: x :: l'
      else x :: heap_insert e l'
  end.

Definition utimeq_push `{Platform} (h : utimeq) (t : Z) (cb args : pyval)
  : exn + utimeq :=
  if alloc h <=? utimeq_len h then inl QueueFull
  else inr (Utimeq (alloc h) (heap_insert (Entry t cb args) (items h))).

Definition utimeq_peektime (h : utimeq) : exn + Z :=
  match items h with
  | [] => inl IndexError
  | e :: _ => inr (e_time e)
  end.

Definition utimeq_pop (h : utimeq) : exn + (entry * utimeq) :=
  match items h with
  | [] => inl IndexError
  | e :: l => inr (e, Utimeq (alloc h) l)
  end.

(** ** Generators *)

(** What a resumption of a task does: suspend with a value, or raise. *)
Inductive gen_event :=
  | Yield (v : pyval)
  | Throw (e : exn).

(** The state of a generator object.  A task written by the user is taken
    by what the loop sees of it, the events of its future resumptions, after
    which it returns; [RunAndStop coro] is the closure [_run_and_stop] of
    [run_until_complete], suspended inside [yield from coro]. *)
Inductive gen_state :=
  | Script (evs : list gen_event)
  | RunAndStop (coro : nat).

(** ** The state of the program *)

(** Calls made to the reactor, an external collaborator: they are recorded
    in the order in which the loop makes them. *)
Inductive reactor_call :=
  | add_reader (h cb : pyval)
  | add_writer (h cb : pyval)
  | remove_reader (h : pyval)
  | remove_writer (h : pyval).

(** The records written by [log.debug]. *)
Inductive log_record :=
  | LogSchedulingLP (cb args : pyval)
  | LogScheduling (t : Z) (cb args : pyval)
  | LogSleeping (delay : Z)
  | LogNext (t : pyval) (cb args : pyval)
  | LogSend (cb args : pyval)
  | LogYield (cb ret : pyval)
  | LogFinished (cb : pyval).

(** The attributes set by [EventLoop.__init__]. *)
Record EventLoop := mkEventLoop {
  q : utimeq;
  lpq : utimeq;
  _max_overdue_ms : Z;
  hpq : option (list pyval)
}.

Section Loop.
Context `{P : Platform}.

Record World := mkWorld {
  loop : EventLoop;          (* self *)
  clock : Z;                 (* milliseconds since the clock started *)
  gens : list gen_state;     (* the generator objects, by reference *)
  env : Env;                 (* the state of the user program *)
  reactor : list reactor_call;
  log : list log_record
}.

(** *** The monad of Python code: state and exceptions *)

Inductive Outcome (A : Type) :=
  | Done (a : A) (w : World)
  | Raised (e : exn) (w : World).
Arguments Done {A} a w.
Arguments Raised {A} e w.

Definition M (A : Type) : Type := World -> Outcome A.

#[global] Instance M_ret : MRet M := fun A a w => Done a w.

#[global] Instance M_bind : MBind M := fun A B f m w =>
  match m w with
  | Done a w' => f a w'
  | Raised e w' => Raised e w'
  end.

Definition raise {A} (e : exn) : M A := fun w => Raised e w.

(** A pure computation that may raise. *)
Definition lift {A} (r : exn + A) : M A :=
  match r with inl e => raise e | inr a => mret a end.

Definition get_loop : M EventLoop := fun w => Done (loop w) w.

Definition set_loop (l : EventLoop) : M unit := fun w =>
  Done tt (mkWorld l (clock w) (gens w) (env w) (reactor w) (log w)).

Definition set_q (h : utimeq) : M unit :=
  l ← get_loop; set_loop (mkEventLoop h (lpq l) (_max_overdue_ms l) (hpq l)).

Definition set_lpq (h : utimeq) : M unit :=
  l ← get_loop; set_loop (mkEventLoop (q l) h (_max_overdue_ms l) (hpq l)).

Definition set_hpq (t : option (list pyval)) : M unit :=
  l ← get_loop; set_loop (mkEventLoop (q l) (lpq l) (_max_overdue_ms l) t).

Definition set_max_overdue_ms (t : Z) : M unit :=
  l ← get_loop; set_loop (mkEventLoop (q l) (lpq l) t (hpq l)).

(** [try: body except StopIteration: handler]. *)
Definition try_StopIteration {A} (body handler : M A) : M A := fun w =>
  match body w with
  | Raised StopIteration w' => handler w'
  | r => r
  end.

(** *** Module-level definitions *)

Definition DEBUG : Z := 0.
Definition __debug__ : bool := true.

(** [if __debug__ and DEBUG: log.debug(...)] *)
Definition debug (r : log_record) : M unit := fun w =>
  if __debug__ && truthy (VInt DEBUG)
  then Done tt (mkWorld (loop w) (clock w) (gens w) (env w) (reactor w) (log w ++ [r]))
  else Done tt w.

(** [assert False, msg] *)
Definition assert_False (m : assert_msg) : M unit :=
  if __debug__ then raise (AssertionError m) else mret tt.

(** [time.ticks_ms()]: the clock, read modulo its period. *)
Definition ticks_ms : M Z := fun w => Done (clock w mod 2 ^ ticks_bits) w.

(** [time.sleep_ms(d)]: the only place where time passes. *)
Definition sleep_ms (d : Z) : M unit := fun w =>
  Done tt (mkWorld (loop w) (clock w + Z.max 0 d) (gens w) (env w) (reactor w) (log w)).

(** Modelled from the spec: the reactor (section 6), whose four operations
    the loop calls on [self] and which [core.py] leaves to a subclass. *)
Definition react (c : reactor_call) : M unit := fun w =>
  Done tt (mkWorld (loop w) (clock w) (gens w) (env w) (reactor w ++ [c]) (log w)).

(** *** Calling and resuming *)

(** The unpacking of [args] into the argument sequence of a call (iterating a generator as an
    argument list is left out). *)
Definition unpack (args : pyval) : exn + list pyval :=
  match args with
  | VTuple vs | VList vs => inr vs
  | _ => inl TypeError
  end.

(** The call of [f] on the arguments [vs].  [SleepMs.__call__(self, arg)] takes one argument and returns
    [self]. *)
Definition call (f : pyval) (vs : list pyval) : M pyval :=
  match f with
  | VFun n => fun w =>
      match call_function n vs (env w) with
      | (inr v, e') => Done v (mkWorld (loop w) (clock w) (gens w) e' (reactor w) (log w))
      | (inl x, e') => Raised x (mkWorld (loop w) (clock w) (gens w) e' (reactor w) (log w))
      end
  | VObj k a =>
      if issubclass k SleepMs
      then match vs with [_] => mret (VObj k a) | _ => raise TypeError end
      else raise TypeError
  | _ => raise TypeError
  end.

Definition set_gen (g : nat) (s : gen_state) : M unit := fun w =>
  Done tt (mkWorld (loop w) (clock w) (<[g := s]> (gens w)) (env w) (reactor w) (log w)).

(** One resumption of generator [g].  A finished generator raises
    [StopIteration]; one that raises is finished.  [_run_and_stop] passes on
    what [coro] yields and, when [coro] is finished, yields [StopLoop(0)]
    and has one more resumption, which finishes it.  [depth] bounds the
    chain of delegations; a generator reached again while it runs is
    refused with [ValueError]. *)
Fixpoint resume (depth : nat) (g : nat) : M pyval := fun w =>
  match gens w !! g with
  | None => Raised TypeError w
  | Some (Script []) => Raised StopIteration w
  | Some (Script (Yield v :: evs)) => ((set_gen g (Script evs) ;; mret v) : M pyval) w
  | Some (Script (Throw e :: evs)) => ((set_gen g (Script []) ;; raise e) : M pyval) w
  | Some (RunAndStop coro) =>
      match depth with
      | O => Raised ValueError w
      | S d =>
          match resume d coro w with
          | Done v w' => Done v w'
          | Raised StopIteration w' =>
              ((set_gen g (Script []) ;; mret (VObj StopLoop (VInt 0))) : M pyval) w'
          | Raised e w' => ((set_gen g (Script []) ;; raise e) : M pyval) w'
          end
      end
  end.

(** [next(cb)] *)
Definition next (cb : pyval) : M pyval :=
  match cb with
  | VGen g => fun w => resume (length (gens w)) g w
  | _ => raise TypeError
  end.

(** [cb.send] on the unpacked [args]: [send] takes exactly one argument.
    The events of a script do not depend on the value sent. *)
Definition send (cb : pyval) (args : pyval) : M pyval :=
  vs ← lift (unpack args);
  match vs with
  | [_] => next cb
  | _ => raise TypeError
  end.

(** *** class EventLoop *)

(** [__init__(self, len=42)], lines 17-25. *)
Definition __init__ (len : Z) : EventLoop :=
  let lpqlen := Z.shiftr len 16 in
  let qlen := Z.land len 65535 in
  mkEventLoop (utimeq_new qlen) (utimeq_new lpqlen) 0 None.

(** [time(self)], lines 27-28. *)
Definition time : M Z := ticks_ms.

(** [self.q.push(t, cb, args)] and [self.lpq.push(t, cb, args)] *)
Definition q_push (t : Z) (cb args : pyval) : M unit :=
  l ← get_loop; h ← lift (utimeq_push (q l) t cb args); set_q h.

Definition lpq_push (t : Z) (cb args : pyval) : M unit :=
  l ← get_loop; h ← lift (utimeq_push (lpq l) t cb args); set_lpq h.

(** [self.q.pop(cur_task)] and [self.lpq.pop(cur_task)]: the entry taken is
    the new content of the buffer [cur_task]. *)
Definition q_pop : M entry :=
  l ← get_loop; '(e, h) ← lift (utimeq_pop (q l)); set_q h ;; mret e.

Definition lpq_pop : M entry :=
  l ← get_loop; '(e, h) ← lift (utimeq_pop (lpq l)); set_lpq h ;; mret e.

(** [call_at_(self, time, callback, args=())], lines 87-90. *)
Definition call_at_ (t : Z) (callback args : pyval) : M unit :=
  debug (LogScheduling t callback args) ;;
  q_push t callback args.

(** [call_at(self, time, callback, *args)], lines 82-85: [args] is the
    tuple of the extra arguments. *)
Definition call_at (t : Z) (callback : pyval) (args : list pyval) : M unit :=
  debug (LogScheduling t callback (VTuple args)) ;;
  q_push t callback (VTuple args).

(** [call_later_ms_(self, delay, callback, args=())], lines 79-80. *)
Definition call_later_ms_ (delay callback args : pyval) : M unit :=
  now ← time;
  d ← lift (as_int delay);
  call_at_ (ticks_add now d) callback args.

(** [create_task(self, coro)], lines 30-33. *)
Definition create_task (coro : pyval) : M unit :=
  call_later_ms_ (VInt 0) coro (VTuple []).

(** [max_overdue_ms(self, t=None)], lines 35-38. *)
Definition max_overdue_ms (t : option Z) : M Z :=
  match t with Some t' => set_max_overdue_ms t' | None => mret tt end ;;
  l ← get_loop; mret (_max_overdue_ms l).

(** [call_after_ms_(self, delay, callback, args=())], lines 40-45. *)
Definition call_after_ms_ (delay callback args : pyval) : M unit :=
  now ← time;
  d ← lift (as_int delay);
  let t := ticks_add now d in
  debug (LogSchedulingLP callback args) ;;
  lpq_push t callback args.

(** [call_after(self, delay, callback, *args)], lines 47-52. *)
Definition call_after (delay callback : pyval) (args : list pyval) : M unit :=
  now ← time;
  d ← lift (int_mul_1000 delay);
  let t := ticks_add now d in
  debug (LogSchedulingLP callback (VTuple args)) ;;
  lpq_push t callback (VTuple args).

(** The table [self.hpq], which the loop reads when it is not [None]. *)
Definition get_hpq : M (list pyval) :=
  l ← get_loop; mret (default [] (hpq l)).

(** [entry[j] = x] on the [i]-th element of [self.hpq], in place. *)
Definition hpq_setitem (i j : nat) (x : pyval) : M unit :=
  t ← get_hpq;
  match t !! i with
  | Some entry => entry' ← lift (setitem entry j x); set_hpq (Some (<[i := entry']> t))
  | None => raise IndexError
  end.

(** The [for entry in self.hpq] of [_schedule_hp], lines 58-63: [true]
    when it left by [break], [false] when it reached its [else]. *)
Fixpoint _schedule_hp_for (entries : list pyval) (i : nat)
    (func callback args : pyval) : M bool :=
  match entries with
  | [] => mret false
  | entry :: rest =>
      p ← lift (getitem entry 0);
      if negb (truthy p) then
        hpq_setitem i 0 func ;;
        hpq_setitem i 1 callback ;;
        hpq_setitem i 2 args ;;
        mret true
      else _schedule_hp_for rest (S i) func callback args
  end.

(** [_schedule_hp(self, func, callback, args=())], lines 54-65. *)
Definition _schedule_hp (func callback args : pyval) : M unit :=
  l ← get_loop;
  match hpq l with
  | None => set_hpq (Some [func; callback; args])
  | Some entries =>
      found ← _schedule_hp_for entries 0 func callback args;
      if (found : bool) then mret tt
      else (t ← get_hpq; set_hpq (Some (t ++ [VList [func; callback; args]])))
  end.

(** [allocate_hpq(self, size)], lines 67-71. *)
Definition allocate_hpq (size : Z) : M unit :=
  l ← get_loop;
  match hpq l with None => set_hpq (Some []) | Some _ => mret tt end ;;
  t ← get_hpq;
  set_hpq (Some (t ++ replicate (Z.to_nat (size - Z.of_nat (length t)))
                               (VList [VInt 0; VInt 0; VInt 0]))).

(** [call_soon(self, callback, *args)], lines 73-74. *)
Definition call_soon (callback : pyval) (args : list pyval) : M unit :=
  now ← time; call_at now callback args.

(** [call_later(self, delay, callback, *args)], lines 76-77. *)
Definition call_later (delay callback : pyval) (args : list pyval) : M unit :=
  now ← time;
  d ← lift (int_mul_1000 delay);
  call_at (ticks_add now d) callback args.

(** [wait(self, delay)], lines 92-97, the default implementation. *)
Definition wait (delay : Z) : M unit :=
  debug (LogSleeping delay) ;;
  sleep_ms delay.

(** *** run_forever *)

(** The [for entry in self.hpq] of [run_forever], lines 109-116.  When a predicate fires
    the slot is emptied and its payload is copied into [cur_task], whose new
    content is returned; [None] when the loop ends with [hp_found] false. *)
Fixpoint hp_for (entries : list pyval) (i : nat) : M (option entry) :=
  match entries with
  | [] => mret None
  | e :: rest =>
      p ← lift (getitem e 0);
      fired ← (if truthy p then r ← call p []; mret (truthy r) else mret false);
      if (fired : bool) then
        hpq_setitem i 0 (VInt 0) ;;
        cb ← lift (getitem e 1);
        args ← lift (getitem e 2);
        mret (Some (Entry 0 cb args))
      else hp_for rest (S i)
  end.

(** [# Check high priority queue]: the [if self.hpq is not None] block,
    lines 107-118. *)
Definition hp_check : M (option entry) :=
  l ← get_loop;
  match hpq l with
  | Some entries => hp_for entries 0
  | None => mret None
  end.

(** One pass through the body of the inner [while 1], lines 105-141: the
    entry written to
    [cur_task] when the pass leaves by [break], [None] when it ends in
    [self.wait(delay)]. *)
Definition select_pass : M (option entry) :=
  hp ← hp_check;
  match hp with
  | Some cur => mret (Some cur)
  | None =>
      tnow ← time;
      l ← get_loop;
      over ← (if utimeq_nonempty (lpq l) && (0 <? _max_overdue_ms l) then
                t ← lift (utimeq_peektime (lpq l));
                let overdue := - ticks_diff t tnow in
                mret (_max_overdue_ms l <? overdue)
              else mret false);
      if (over : bool) then cur ← lpq_pop; mret (Some cur)
      else
        t ← lift (utimeq_peektime (q l));
        let delay := ticks_diff t tnow in
        if delay <=? 0 then cur ← q_pop; mret (Some cur)
        else if utimeq_nonempty (lpq l) then
          t ← lift (utimeq_peektime (lpq l));
          let lpdelay := ticks_diff t tnow in
          if lpdelay <=? 0 then cur ← lpq_pop; mret (Some cur)
          else (wait (Z.min delay lpdelay) ;; mret None)
        else (wait delay ;; mret None)
  end.

(** The inner [while 1], for at most [fuel] passes. *)
Fixpoint select (fuel : nat) : M (option entry) :=
  match fuel with
  | O => mret None
  | S n =>
      r ← select_pass;
      match r with
      | Some cur => mret (Some cur)
      | None => select n
      end
  end.

(** What the interpretation of a yielded value leaves to the rest of the
    iteration: the locals [delay], [func] and [priority] for the re-enqueue
    at the end of the loop body, a [continue], or a [return]. *)
Inductive effect :=
  | Reenqueue (delay : pyval) (func : option pyval) (priority : bool)
  | Skip
  | Stop (v : pyval).

(** The chain of [isinstance] tests on [ret], inside the [try], lines
    180-220.  [priority] is [True] unless [ret] is an [AfterMs]; [delay]
    is 0 and [func] is [None] unless a branch assigns them. *)
Definition interpret (cb ret : pyval) : M effect :=
  if isinstance ret SysCall1 then
    let arg := match ret with VObj _ a => a | _ => VNone end in
    let priority := negb (isinstance ret AfterMs) in
    if isinstance ret Sleep || isinstance ret After then
      d ← lift (int_mul_1000 arg);
      mret (Reenqueue (VInt d) None priority)
    else if isinstance ret When then
      if callable arg then mret (Reenqueue (VInt 0) (Some arg) priority)
      else (assert_False BadWhenArgument ;; mret (Reenqueue (VInt 0) None priority))
    else if isinstance ret SleepMs then
      mret (Reenqueue arg None priority)
    else if isinstance ret IORead then
      react (add_reader arg cb) ;; mret Skip
    else if isinstance ret IOWrite then
      react (add_writer arg cb) ;; mret Skip
    else if isinstance ret IOReadDone then
      react (remove_reader arg) ;; mret (Reenqueue (VInt 0) None priority)
    else if isinstance ret IOWriteDone then
      react (remove_writer arg) ;; mret (Reenqueue (VInt 0) None priority)
    else if isinstance ret StopLoop then
      mret (Stop arg)
    else
      (assert_False UnknownSyscall ;; mret (Reenqueue (VInt 0) None priority))
  else
    match ret with
    | VGen _ => call_soon ret [] ;; mret (Reenqueue (VInt 0) None true)
    | VInt _ => mret (Reenqueue ret None true)
    | VNone => mret (Reenqueue (VInt 0) None true)
    | _ => assert_False UnsupportedYield ;; mret (Reenqueue (VInt 0) None true)
    end.

(** The end of the loop body, lines 225-231: [_schedule_hp],
    [call_later_ms_] or [call_after_ms_]. *)
Definition reenqueue (delay : pyval) (func : option pyval) (priority : bool)
    (cb args : pyval) : M unit :=
  match func with
  | Some f => _schedule_hp f cb args
  | None =>
      if priority then call_later_ms_ delay cb args
      else call_after_ms_ delay cb args
  end.

(** How an iteration of the outer [while True] ends. *)
Inductive status :=
  | Continue
  | Return (v : pyval).

(** Lines 174-177: [next(cb)] when [args == ()], else [cb.send] on the
    unpacked [args]. *)
Definition resume_task (cb args : pyval) : M pyval :=
  match args with
  | VTuple [] => next cb
  | _ => send cb args
  end.

(** The second half of the loop body, from [if callable(cb)], lines
    165-231. *)
Definition dispatch (cur : entry) : M status :=
  let cb := e_cb cur in
  let args := e_args cur in
  if callable cb then
    vs ← lift (unpack args);
    call cb vs ;; mret Continue
  else
    eff ← try_StopIteration
      (debug (LogSend cb args) ;;
       ret ← resume_task cb args;
       debug (LogYield cb ret) ;;
       interpret cb ret)
      (debug (LogFinished cb) ;; mret Skip);
    match eff with
    | Reenqueue delay func priority =>
        reenqueue delay func priority cb args ;; mret Continue
    | Skip => mret Continue
    | Stop v => mret (Return v)
    end.

Definition log_next (cur : entry) : M unit :=
  debug (LogNext (VInt (e_time cur)) (e_cb cur) (e_args cur)).

(** The first half of the loop body, lines 102-164, down to
    [if callable(cb)]: what the selection leaves in [cur_task]. *)
Inductive picked :=
  | Picked (cur : entry)   (* an entry to run *)
  | Idle                   (* [self.wait(-1)] and [continue] *)
  | Waiting.               (* the inner loop was still waiting after [fuel] passes *)

Definition pick (fuel : nat) : M picked :=
  l ← get_loop;
  if utimeq_nonempty (q l) then
    sel ← select fuel;
    match sel with
    | None => mret Waiting
    | Some cur => log_next cur ;; mret (Picked cur)
    end
  else
    ready ← (if utimeq_nonempty (lpq l) then
               t ← lift (utimeq_peektime (lpq l));
               now ← time;
               let delay := ticks_diff t now in
               if delay <=? 0 then cur ← lpq_pop; log_next cur ;; mret (Some cur)
               else mret None
             else mret None);
    match ready with
    | Some cur => mret (Picked cur)
    | None => wait (-1) ;; mret Idle
    end.

(** One iteration of the outer [while True]; [None] when the inner loop
    was still waiting after [fuel] passes. *)
Definition iteration (fuel : nat) : M (option status) :=
  p ← pick fuel;
  match p with
  | Picked cur => s ← dispatch cur; mret (Some s)
  | Idle => mret (Some Continue)
  | Waiting => mret None
  end.

(** The result of running the loop on a budget of iterations: the value
    of its [return], or still running when the budget is spent. *)
Inductive result :=
  | Returned (v : pyval)
  | Running.

(** [run_forever(self)], lines 99-231: the outer [while True]. *)
Fixpoint run_forever (fuel : nat) : M result :=
  match fuel with
  | O => mret Running
  | S n =>
      s ← iteration n;
      match s with
      | None => mret Running
      | Some (Return v) => mret (Returned v)
      | Some Continue => run_forever n
      end
  end.

(** The call [_run_and_stop()]: a new generator object. *)
Definition _run_and_stop (coro : nat) : M pyval := fun w =>
  Done (VGen (length (gens w)))
       (mkWorld (loop w) (clock w) (gens w ++ [RunAndStop coro]) (env w) (reactor w) (log w)).

(** [run_until_complete(self, coro)], lines 233-238.  It has no [return]:
    when [run_forever] returns, the value of the call is [None]. *)
Definition run_until_complete (fuel : nat) (coro : nat) : M result :=
  g ← _run_and_stop coro;
  call_soon g [] ;;
  r ← run_forever fuel;
  match r with
  | Returned _ => mret (Returned VNone)
  | Running => mret Running
  end.

(** [close(self)], lines 240-241. *)
Definition close : M unit := mret tt.

(** The world after an assignment to [self.q] or [self.lpq]. *)
Definition with_q (w : World) (h : utimeq) : World :=
  mkWorld (mkEventLoop h (lpq (loop w)) (_max_overdue_ms (loop w)) (hpq (loop w)))
          (clock w) (gens w) (env w) (reactor w) (log w).

Definition with_lpq (w : World) (h : utimeq) : World :=
  mkWorld (mkEventLoop (q (loop w)) h (_max_overdue_ms (loop w)) (hpq (loop w)))
          (clock w) (gens w) (env w) (reactor w) (log w).

(** The world in which generator [g] is in state [s]. *)
Definition with_gen (w : World) (g : nat) (s : gen_state) : World :=
  mkWorld (loop w) (clock w) (<[g := s]> (gens w)) (env w) (reactor w) (log w).

(** The values of the table of directives (section 4.5 of the
    specification), apart from its last row, "anything else". *)
Definition spec_directive (ret : pyval) : bool :=
  match ret with
  | VObj c _ =>
      bool_decide (c ∈ [Sleep; SleepMs; After; AfterMs; When; IORead; IOWrite;
                        IOReadDone; IOWriteDone; StopLoop])
  | VGen _ | VInt _ | VNone => true
  | _ => false
  end.

(** The binary64 number written [0.0019]. *)
Definition f0_0019 : spec_float := S754_finite false 8762203435012037 (-62).

(** A resumption touches the generators and nothing else. *)
Definition same_but_gens (w w' : World) : Prop :=
  loop w' = loop w /\ clock w' = clock w /\ env w' = env w /\
  reactor w' = reactor w /\ log w' = log w.

(** The [if] conditions of the selection, on the loop [l] at time [tnow]:
    the low-priority head is overdue beyond [_max_overdue_ms]; the head of
    the normal queue is due; the low-priority head is due. *)
Definition lpq_overdue (l : EventLoop) (tnow : Z) : bool :=
  match items (lpq l) with
  | el :: _ =>
      (0 <? _max_overdue_ms l) && (_max_overdue_ms l <? - ticks_diff (e_time el) tnow)
  | [] => false
  end.

Definition nq_due (l : EventLoop) (tnow : Z) : bool :=
  match items (q l) with
  | en :: _ => ticks_diff (e_time en) tnow <=? 0
  | [] => false
  end.

Definition lpq_due (l : EventLoop) (tnow : Z) : bool :=
  match items (lpq l) with
  | el :: _ => ticks_diff (e_time el) tnow <=? 0
  | [] => false
  end.

(** The delay of [self.wait(delay)] at the end of a pass that selects
    nothing. *)
Definition wait_delay (l : EventLoop) (tnow : Z) : Z :=
  match items (q l), items (lpq l) with
  | en :: _, el :: _ => Z.min (ticks_diff (e_time en) tnow) (ticks_diff (e_time el) tnow)
  | en :: _, [] => ticks_diff (e_time en) tnow
  | [], _ => 0
  end.

(** A scan of the table touches the table and the user program only. *)
Definition same_queues (w w' : World) : Prop :=
  q (loop w') = q (loop w) /\ lpq (loop w') = lpq (loop w) /\
  _max_overdue_ms (loop w') = _max_overdue_ms (loop w) /\
  clock w' = clock w /\ gens w' = gens w /\
  reactor w' = reactor w /\ log w' = log w.

(** The world with table [t] and user state [e]. *)
Definition with_hpq_env (w : World) (t : option (list pyval)) (e : Env) : World :=
  mkWorld (mkEventLoop (q (loop w)) (lpq (loop w)) (_max_overdue_ms (loop w)) t)
          (clock w) (gens w) e (reactor w) (log w).

End Loop.

Arguments Done {P A} a w.
Arguments Raised {P A} e w.

(** ** Module level *)

(** [get_event_loop(qlen=42, lpqlen=42)], lines 275-280, against the global
    [_event_loop]:
    the loop returned, which is also the new value of the global. *)
Definition get_event_loop (qlen lpqlen : Z) (_event_loop : option EventLoop)
  : EventLoop :=
  match _event_loop with
  | None => __init__ (qlen + Z.shiftl lpqlen 16)
  | Some l => l
  end.

(** ** A concrete platform *)

(** A 32-bit tick counter and a user program with one flag: function 0 is
    [lambda: flag], function 1 sets the flag, every other function does
    nothing. *)
Definition flag_platform : Platform := {|
  ticks_bits := 32;
  Env := bool;
  call_function := fun f _ flag =>
    match f with
    | O => (inr (VInt (if flag then 1 else 0)), flag)
    | S O => (inr VNone, true)
    | _ => (inr VNone, flag)
    end
|}.

(** The program state right after [EventLoop(len)], with the given
    generator objects alive. *)
Definition boot `{P : Platform} (len : Z) (t0 : Z) (gs : list gen_state) (e : Env) : World :=
  mkWorld (__init__ len) t0 gs e [] [].

Definition sleep_chain : list gen_state :=
  [Script [Yield (VObj SleepMs (VInt 10)); Yield (VObj SleepMs (VInt 20));
           Yield (VObj StopLoop (VInt 42))]].


(** The program state a computation leaves behind. *)
Definition state_after `{P : Platform} {A} (m : M A) (w : World) : World :=
  match m w with Done _ w' | Raised _ w' => w' end.

(** [run_until_complete] up to the point where [run_forever] returns. *)
Definition started_run_forever `{P : Platform} (fuel : nat) (coro : nat) : M result :=
  g ← _run_and_stop coro;
  call_soon g [] ;;
  run_forever fuel.

(** A loop on which [call_soon(task)] was called for a task that raises at
    its first resumption. *)
Definition raising_task_world : @World flag_platform :=
  @state_after flag_platform _ (call_soon (VGen 0) [])
              (@boot flag_platform 42 0 [Script [Throw (UserException 7)]] false).

(** A loop on which [call_soon(task)] was called for a task that yields the
    float [0.0019]. *)
Definition float_yield_world : @World flag_platform :=
  @state_after flag_platform _ (call_soon (VGen 0) [])
              (@boot flag_platform 42 0 [Script [Yield (VFloat f0_0019)]] false).

(** A loop built through its public methods on which everything is ready
    at once: the table holds task 0 waiting on [lambda: flag], the
    low-priority queue holds task 1, due at 0 with [max_overdue_ms(50)],
    the normal queue holds task 2, due at 0, and the clock reads 100. *)
Definition ready_world (flag : bool) : @World flag_platform :=
  @state_after flag_platform _
    (allocate_hpq 1 ;;
     _schedule_hp (VFun 0) (VGen 0) (VTuple []) ;;
     max_overdue_ms (Some 50) ;;
     call_after_ms_ (VInt 0) (VGen 1) (VTuple []) ;;
     call_soon (VGen 2) [] ;;
     sleep_ms 100)
    (@boot flag_platform 2752554 0 [Script []; Script []; Script []] flag).

(** ** The awaitable objects *)

(** [class SleepMs], lines 286-309, and its subclasses: one object per
    class ([sleep_ms], [after_ms], [after], [when]), shared by every task
    that uses it.  The object has two fields; what a task yields to the loop
    is the object itself, of which the loop reads the class and [arg]. *)
Module Awaitable.

Record t := mk { klass : cls; v : pyval; arg : pyval }.

(** [__init__(self)], lines 288-290. *)
Definition __init__ (c : cls) : t := mk c VNone VNone.

(** [__call__(self, arg)], lines 292-295: returns [self]. *)
Definition __call__ (self : t) (a : pyval) : t := mk (klass self) a (arg self).

(** [__iter__(self)], lines 297-299. *)
Definition __iter__ (self : t) : t := self.

(** The object as the loop sees it. *)
Definition as_value (self : t) : pyval := VObj (klass self) (arg self).

(** [__next__(self)], lines 301-309: the value returned or the exception
    raised, and the object afterwards. *)
Definition __next__ (self : t) : (exn + pyval) * t :=
  match v self with
  | VNone => (inl StopIteration, self)
  | x => let self' := mk (klass self) VNone x in (inr (as_value self'), self')
  end.

End Awaitable.

(** [sleep(secs)], lines 282-283: a generator that yields
    [int(secs * 1000)] once; the conversion runs at the first resumption,
    which raises when the conversion does. *)
Definition sleep (secs : pyval) : gen_state :=
  match int_mul_1000 secs with
  | inr d => Script [Yield (VInt d)]
  | inl e => Script [Throw e]
  end.

(** ** Shapes of the table and of the queues *)

(** A slot of the table as [allocate_hpq] and the [append] of
    [_schedule_hp] make it: a list of three elements. *)
Definition is_slot (e : pyval) : bool :=
  match e with
  | VList [_; _; _] => true
  | _ => false
  end.

(** A slot whose first element is truthy: [not entry[0]] is false. *)
Definition occupied (e : pyval) : bool :=
  match getitem e 0 with
  | inr p => truthy p
  | inl _ => false
  end.

(** The empty slot [[0, 0, 0]] of [allocate_hpq]. *)
Definition empty_slot : pyval := VList [VInt 0; VInt 0; VInt 0].

(** A queue that holds no more than its capacity, or nothing. *)
Definition bounded (h : utimeq) : Prop :=
  items h = [] \/ utimeq_len h <= alloc h.

(** The capacities are the same in [w'] as in [w], and a queue that was
    within its capacity still is. *)
Definition caps_kept `{P : Platform} (w w' : World) : Prop :=
  alloc (q (loop w')) = alloc (q (loop w)) /\
  alloc (lpq (loop w')) = alloc (lpq (loop w)) /\
  (bounded (q (loop w)) -> bounded (q (loop w'))) /\
  (bounded (lpq (loop w)) -> bounded (lpq (loop w'))).

(** Whatever its outcome, [m] leaves a state related to the one it
    started in. *)
Definition keeps `{P : Platform} {A} (R : World -> World -> Prop) (m : M A) : Prop :=
  forall w, match m w with Done _ w' | Raised _ w' => R w w' end.

(** The world with clock [c] and normal queue [h]. *)
Definition with_clock_q `{P : Platform} (w : World) (c : Z) (h : utimeq) : World :=
  mkWorld (mkEventLoop h (lpq (loop w)) (_max_overdue_ms (loop w)) (hpq (loop w)))
          c (gens w) (env w) (reactor w) (log w).

(** The world with the reactor calls [r]. *)
Definition with_reactor `{P : Platform} (w : World) (r : list reactor_call) : World :=
  mkWorld (loop w) (clock w) (gens w) (env w) r (log w).


(** [call_soon(cb)] called [k] times in a row. *)
Fixpoint call_soon_times `{P : Platform} (k : nat) (cb : pyval) : M unit :=
  match k with
  | O => mret tt
  | S k' => call_soon cb [] ;; call_soon_times k' cb
  end.

(** Concrete program states for the further properties: a loop with a
    table of two empty slots; a loop whose only task waits in the table on
    [lambda: flag] with the flag set; a loop on which [call_soon(task)] was
    called for a task with the given events; a loop whose low-priority head
    is 100 ms overdue while the threshold is 0; a loop whose only entry is
    due in 10 ms. *)
Definition table_world (flag : bool) : @World flag_platform :=
  @state_after flag_platform _ (allocate_hpq 2) (@boot flag_platform 42 0 [Script []] flag).

Definition waiting_world : @World flag_platform :=
  @state_after flag_platform _
    (allocate_hpq 1 ;; _schedule_hp (VFun 0) (VGen 0) (VTuple []))
    (@boot flag_platform 42 0 [Script []] true).

Definition one_task_world (evs : list gen_event) : @World flag_platform :=
  @state_after flag_platform _ (call_soon (VGen 0) [])
    (@boot flag_platform 42 0 [Script evs; Script []] false).

Definition overdue_world : @World flag_platform :=
  @state_after flag_platform _
    (call_after_ms_ (VInt 0) (VGen 1) (VTuple []) ;;
     call_soon (VGen 2) [] ;;
     sleep_ms 100)
    (@boot flag_platform 2752554 0 [Script []; Script []; Script []] false).

Definition delayed_world : @World flag_platform :=
  @state_after flag_platform _ (call_later_ms_ (VInt 10) (VGen 0) (VTuple []))
    (@boot flag_platform 42 0 [Script []] false).

(** ** Properties *)

Section Properties.
Context `{P : Platform}.

(** *** Running the monad *)

Lemma bind_run {A B} (m : M A) (f : A -> M B) (w : World) :
  (m ≫= f) w = match m w with Done a w' => f a w' | Raised e w' => Raised e w' end.
Proof. reflexivity. Qed.

Lemma debug_skip (r : log_record) (w : World) : debug r w = Done tt w.
Proof. reflexivity. Qed.

Lemma lift_run {A} (r : exn + A) (w : World) :
  lift r w = match r with inl e => Raised e w | inr a => Done a w end.
Proof. destruct r; reflexivity. Qed.

Lemma q_push_run t cb args w :
  q_push t cb args w =
  match utimeq_push (q (loop w)) t cb args with
  | inl e => Raised e w
  | inr h => Done tt (with_q w h)
  end.
Proof.
  unfold q_push. rewrite bind_run. cbn. rewrite bind_run, lift_run.
  destruct (utimeq_push _ _ _ _); reflexivity.
Qed.

Lemma lpq_push_run t cb args w :
  lpq_push t cb args w =
  match utimeq_push (lpq (loop w)) t cb args with
  | inl e => Raised e w
  | inr h => Done tt (with_lpq w h)
  end.
Proof.
  unfold lpq_push. rewrite bind_run. cbn. rewrite bind_run, lift_run.
  destruct (utimeq_push _ _ _ _); reflexivity.
Qed.

Lemma call_later_ms__run k cb args w :
  call_later_ms_ (VInt k) cb args w =
  q_push (ticks_add (clock w mod 2 ^ ticks_bits) k) cb args w.
Proof. reflexivity. Qed.

Lemma call_after_ms__run k cb args w :
  call_after_ms_ (VInt k) cb args w =
  lpq_push (ticks_add (clock w mod 2 ^ ticks_bits) k) cb args w.
Proof. reflexivity. Qed.

(** *** The constructor *)

(** C7, as amended: for a non-negative constructor argument the normal
    queue gets capacity [value & 0xFFFF] and the low-priority queue gets
    [value >> 16], without a mask; the latter is [(value >> 16) & 0xFFFF]
    exactly when [value < 2^32]. *)
Theorem init_capacities (value : Z) :
  0 <= value ->
  alloc (q (__init__ value)) = Z.land value 65535 /\
  alloc (lpq (__init__ value)) = Z.shiftr value 16 /\
  items (q (__init__ value)) = [] /\
  items (lpq (__init__ value)) = [] /\
  (Z.shiftr value 16 = Z.land (Z.shiftr value 16) 65535 <-> value < 2 ^ 32).
Proof.
  intros Hv. repeat split; try reflexivity.
  - intros Heq. rewrite Z.shiftr_div_pow2 in Heq by lia.
    change 65535 with (Z.ones 16) in Heq. rewrite Z.land_ones in Heq by lia.
    assert (value / 2 ^ 16 < 2 ^ 16) by (rewrite Heq; apply Z.mod_pos_bound; lia).
    pose proof (Z.div_mod value (2 ^ 16) ltac:(lia)) as Hdm.
    pose proof (Z.mod_pos_bound value (2 ^ 16) ltac:(lia)) as Hr.
    change (2 ^ 16) with 65536 in *. change (2 ^ 32) with 4294967296. lia.
  - intros Hlt. rewrite Z.shiftr_div_pow2 by lia.
    change 65535 with (Z.ones 16). rewrite Z.land_ones by lia.
    symmetry. apply Z.mod_small. split.
    + apply Z.div_pos; lia.
    + apply Z.div_lt_upper_bound; lia.
Qed.

(** *** Low-priority scheduling and the default constructor argument *)

Lemma utimeq_push_no_room h t cb args :
  alloc h <= 0 -> utimeq_push h t cb args = inl QueueFull.
Proof.
  intros Ha. unfold utimeq_push, utimeq_len.
  destruct (Z.leb_spec (alloc h) (Z.of_nat (length (items h)))); [reflexivity | lia].
Qed.

Lemma utimeq_push_room h t cb args h' :
  utimeq_push h t cb args = inr h' -> 0 < alloc h /\ alloc h' = alloc h.
Proof.
  unfold utimeq_push, utimeq_len.
  destruct (Z.leb_spec (alloc h) (Z.of_nat (length (items h)))); [discriminate|].
  intros [= <-]. cbn. lia.
Qed.

(** C10: [EventLoop()] gives the low-priority queue capacity [42 >> 16 = 0];
    on a loop with that capacity every [call_after_ms_] and every
    [call_after] fails and leaves the program state as it was, with
    [QueueFull] whenever the delay is a number; a low-priority call succeeds
    only on a loop whose constructor argument has [len >> 16] nonzero, as
    the default of [get_event_loop] has: there the capacity is 42 and the
    first call succeeds. *)
Theorem default_loop_has_no_lpq (w : World) :
  alloc (lpq (loop w)) = alloc (lpq (__init__ 42)) ->
  alloc (lpq (__init__ 42)) = 0 /\
  (forall delay cb args, exists e,
      call_after_ms_ delay cb args w = Raised e w /\
      (forall d, as_int delay = inr d -> e = QueueFull)) /\
  (forall delay cb args, exists e,
      call_after delay cb args w = Raised e w /\
      (forall d, int_mul_1000 delay = inr d -> e = QueueFull)) /\
  (forall len w1 w2 delay cb args vs,
      alloc (lpq (loop w1)) = alloc (lpq (__init__ len)) ->
      call_after_ms_ delay cb args w1 = Done tt w2 \/
      call_after delay cb vs w1 = Done tt w2 ->
      Z.shiftr len 16 <> 0) /\
  alloc (lpq (get_event_loop 42 42 None)) = 42 /\
  (forall t0 gs e d cb args, exists w2,
      call_after_ms_ (VInt d) cb args
        (mkWorld (get_event_loop 42 42 None) t0 gs e [] []) = Done tt w2).
Proof.
  intros Hw. change (alloc (lpq (__init__ 42))) with 0 in *.
  split; [reflexivity|]. split; [|split; [|split; [|split]]].
  - intros delay cb args. unfold call_after_ms_. rewrite bind_run. cbn.
    rewrite bind_run, lift_run.
    destruct (as_int delay) as [e|d] eqn:Hd.
    + exists e. split; [reflexivity | discriminate].
    + exists QueueFull. split; [|reflexivity].
      rewrite bind_run, debug_skip, lpq_push_run, utimeq_push_no_room by lia.
      reflexivity.
  - intros delay cb args. unfold call_after. rewrite bind_run. cbn.
    rewrite bind_run, lift_run.
    destruct (int_mul_1000 delay) as [e|d] eqn:Hd.
    + exists e. split; [reflexivity | discriminate].
    + exists QueueFull. split; [|reflexivity].
      rewrite bind_run, debug_skip, lpq_push_run, utimeq_push_no_room by lia.
      reflexivity.
  - intros len w1 w2 delay cb args vs Hcap Hok.
    change (alloc (lpq (__init__ len))) with (Z.shiftr len 16) in Hcap.
    assert (0 < alloc (lpq (loop w1))) as Hpos; [|lia].
    destruct Hok as [Hok|Hok].
    + unfold call_after_ms_ in Hok. rewrite bind_run in Hok. cbn in Hok.
      rewrite bind_run, lift_run in Hok. destruct (as_int delay); [discriminate|].
      rewrite bind_run, debug_skip, lpq_push_run in Hok.
      destruct (utimeq_push _ _ _ _) eqn:Hp; [discriminate|].
      apply utimeq_push_room in Hp. lia.
    + unfold call_after in Hok. rewrite bind_run in Hok. cbn in Hok.
      rewrite bind_run, lift_run in Hok. destruct (int_mul_1000 delay); [discriminate|].
      rewrite bind_run, debug_skip, lpq_push_run in Hok.
      destruct (utimeq_push _ _ _ _) eqn:Hp; [discriminate|].
      apply utimeq_push_room in Hp. lia.
  - reflexivity.
  - intros t0 gs e d cb args. rewrite call_after_ms__run, lpq_push_run.
    eexists. reflexivity.
Qed.

(** *** Directives *)

Lemma reenqueue_normal k cb args w :
  reenqueue (VInt k) None true cb args w =
  q_push (ticks_add (clock w mod 2 ^ ticks_bits) k) cb args w.
Proof. reflexivity. Qed.

Lemma reenqueue_low k cb args w :
  reenqueue (VInt k) None false cb args w =
  lpq_push (ticks_add (clock w mod 2 ^ ticks_bits) k) cb args w.
Proof. reflexivity. Qed.

Lemma resume_same_but_gens depth :
  forall g w, match resume depth g w with
              | Done _ w' | Raised _ w' => same_but_gens w w'
              end.
Proof.
  induction depth as [|d IH]; intros g w; cbn [resume];
    destruct (gens w !! g) as [[[|[v|e] evs]|coro]|]; try (repeat split; fail).
  - specialize (IH coro w). destruct (resume d coro w) as [v w'|e w'].
    + exact IH.
    + destruct IH as (?&?&?&?&?). destruct e; repeat split; assumption.
Qed.

Lemma resume_task_same_but_gens cb args w :
  match resume_task cb args w with
  | Done _ w' | Raised _ w' => same_but_gens w w'
  end.
Proof.
  assert (Hnext : match next cb w with
                  | Done _ w' | Raised _ w' => same_but_gens w w' end).
  { destruct cb; try (repeat split; fail). apply resume_same_but_gens. }
  unfold resume_task, send.
  destruct args as [| | |[|x [|y vs]]|[|x [|y vs]]| | |]; try exact Hnext;
    repeat split.
Qed.

(** A resumed script yields its next value and moves on. *)
Lemma next_Yield g v evs w :
  gens w !! g = Some (Script (Yield v :: evs)) ->
  next (VGen g) w = Done v (with_gen w g (Script evs)).
Proof.
  intros Hg. cbn [next].
  destruct (length (gens w)) eqn:Hlen.
  - apply lookup_lt_Some in Hg. lia.
  - cbn [resume]. rewrite Hg. reflexivity.
Qed.

(** *** The loop body, unfolded once *)

Lemma dispatch_task cur w :
  callable (e_cb cur) = false ->
  dispatch cur w =
  match resume_task (e_cb cur) (e_args cur) w with
  | Raised StopIteration w1 => Done Continue w1
  | Raised e w1 => Raised e w1
  | Done ret w1 =>
      match interpret (e_cb cur) ret w1 with
      | Raised StopIteration w2 => Done Continue w2
      | Raised e w2 => Raised e w2
      | Done (Reenqueue d f p) w2 =>
          (reenqueue d f p (e_cb cur) (e_args cur) ;; mret Continue) w2
      | Done Skip w2 => Done Continue w2
      | Done (Stop v) w2 => Done (Return v) w2
      end
  end.
Proof.
  intros Hc. unfold dispatch. rewrite Hc, bind_run.
  unfold try_StopIteration. rewrite bind_run, debug_skip, bind_run.
  destruct (resume_task _ _ w) as [ret w1|e w1].
  - rewrite bind_run, debug_skip.
    destruct (interpret _ ret w1) as [[d f p| |v] w2|e w2]; try reflexivity.
    destruct e; reflexivity.
  - destruct e; reflexivity.
Qed.

Lemma run_forever_step n w cur w0 :
  pick n w = Done (Picked cur) w0 ->
  run_forever (S n) w =
  match dispatch cur w0 with
  | Done Continue w1 => run_forever n w1
  | Done (Return v) w1 => Done (Returned v) w1
  | Raised e w1 => Raised e w1
  end.
Proof.
  intros Hp. cbn [run_forever]. rewrite bind_run. unfold iteration.
  rewrite bind_run, Hp, bind_run.
  destruct (dispatch cur w0) as [[|v] w1|e w1]; reflexivity.
Qed.

(** *** More fuel changes no result *)

Lemma select_more_fuel n :
  forall w, match select n w with
            | Done None _ => True
            | r => select (S n) w = r
            end.
Proof.
  induction n as [|n IH]; intros w; [exact I|].
  change (select (S (S n)) w) with
    ((r ← select_pass; match r with Some cur => mret (Some cur) | None => select (S n) end) w).
  change (select (S n) w) with
    ((r ← select_pass; match r with Some cur => mret (Some cur) | None => select n end) w).
  rewrite !bind_run.
  destruct (select_pass w) as [[cur|] w'|e w']; try reflexivity.
  apply IH.
Qed.

Lemma pick_more_fuel n w :
  match pick n w with
  | Done Waiting _ => True
  | r => pick (S n) w = r
  end.
Proof.
  unfold pick. rewrite !bind_run.
  change (get_loop w) with (Done (loop w) w). cbv beta iota.
  destruct (utimeq_nonempty (q (loop w))).
  - rewrite !bind_run. pose proof (select_more_fuel n w) as H.
    destruct (select n w) as [[cur|] w'|e w']; try exact I; rewrite H; reflexivity.
  - match goal with |- context [(?m ≫= ?f) w] => destruct ((m ≫= f) w) as [[| |] w'|e w'] end;
      try reflexivity; exact I.
Qed.

Lemma iteration_more_fuel n w :
  match iteration n w with
  | Done None _ => True
  | r => iteration (S n) w = r
  end.
Proof.
  unfold iteration. rewrite !bind_run. pose proof (pick_more_fuel n w) as H.
  destruct (pick n w) as [[cur| |] w'|e w']; try exact I; rewrite H; try reflexivity.
  rewrite !bind_run. destruct (dispatch cur w') as [s w''|e w'']; reflexivity.
Qed.

Lemma run_forever_more_fuel n :
  forall w, match run_forever n w with
            | Done Running _ => True
            | r => run_forever (S n) w = r
            end.
Proof.
  induction n as [|n IH]; intros w; [exact I|].
  change (run_forever (S (S n)) w) with
    ((s ← iteration (S n);
      match s with
      | None => mret Running
      | Some (Return v) => mret (Returned v)
      | Some Continue => run_forever (S n)
      end) w).
  change (run_forever (S n) w) with
    ((s ← iteration n;
      match s with
      | None => mret Running
      | Some (Return v) => mret (Returned v)
      | Some Continue => run_forever n
      end) w).
  rewrite !bind_run. pose proof (iteration_more_fuel n w) as H.
  destruct (iteration n w) as [[[|v]|] w'|e w']; try exact I; rewrite H; try reflexivity.
  apply IH.
Qed.

(** A result reached on a budget is the result on every larger budget. *)
Lemma run_forever_fuel n m w :
  (n <= m)%nat ->
  match run_forever n w with
  | Done Running _ => True
  | r => run_forever m w = r
  end.
Proof.
  induction 1 as [|m Hle IH].
  - destruct (run_forever n w) as [[v|] w'|e w']; trivial.
  - pose proof (run_forever_more_fuel m w) as H.
    destruct (run_forever n w) as [[v|] w'|e w']; trivial; rewrite IH in H; exact H.
Qed.

(** *** What the loop does with a yielded value *)

Lemma resume_task_Yield g v evs args w :
  (g < length (gens w))%nat ->
  args = VTuple [] \/ (exists x, unpack args = inr [x]) ->
  resume_task (VGen g) args (with_gen w g (Script (Yield v :: evs)))
  = Done v (with_gen w g (Script evs)).
Proof.
  intros Hg Hargs.
  assert (Hn : next (VGen g) (with_gen w g (Script (Yield v :: evs)))
               = Done v (with_gen w g (Script evs))).
  { erewrite next_Yield by (cbn; apply list_lookup_insert_eq, Hg).
    unfold with_gen; cbn. rewrite list_insert_insert_eq. reflexivity. }
  destruct Hargs as [->|[x Hx]]; [exact Hn|].
  unfold resume_task, send.
  destruct args as [| | |vs|vs| | |]; try discriminate;
    injection Hx as ->; exact Hn.
Qed.


(** C8: a yielded value outside the table of directives stops the loop
    with an [AssertionError]: the interpretation of the value raises it,
    the loop body lets it through with the queues as the selection left
    them, so the task is on none of them again, and [run_forever] ends with
    it. *)
Theorem unknown_directive_is_fatal (n : nat) (w w0 w1 : World) (cur : entry) (ret : pyval) :
  pick n w = Done (Picked cur) w0 ->
  callable (e_cb cur) = false ->
  resume_task (e_cb cur) (e_args cur) w0 = Done ret w1 ->
  spec_directive ret = false ->
  exists msg,
    interpret (e_cb cur) ret w1 = Raised (AssertionError msg) w1 /\
    dispatch cur w0 = Raised (AssertionError msg) w1 /\
    (forall m, (n < m)%nat -> run_forever m w = Raised (AssertionError msg) w1) /\
    loop w1 = loop w0.
Proof.
  intros Hp Hc Hr Hd.
  assert (Hi : exists m, interpret (e_cb cur) ret w1 = Raised (AssertionError m) w1).
  { destruct ret as [| | | | | | |c a]; try discriminate Hd;
      try (exists UnsupportedYield; reflexivity).
    destruct c; try discriminate Hd.
    - exists UnsupportedYield; reflexivity.
    - exists UnknownSyscall; reflexivity. }
  destruct Hi as [m Hi]. exists m.
  assert (Hdis : dispatch cur w0 = Raised (AssertionError m) w1).
  { rewrite dispatch_task, Hr, Hi by assumption. reflexivity. }
  split; [exact Hi|]. split; [exact Hdis|]. split.
  - intros k Hk. pose proof (run_forever_fuel (S n) k w Hk) as Hfuel.
    rewrite (run_forever_step _ _ _ _ Hp), Hdis in Hfuel. exact Hfuel.
  - pose proof (resume_task_same_but_gens (e_cb cur) (e_args cur) w0) as Hs.
    rewrite Hr in Hs. apply Hs.
Qed.

(** C3, as amended: an exception other than [StopIteration] raised by the
    resumption of a task is not caught: it leaves the loop body and
    [run_forever], which ends with it; the task is on no queue again and
    nothing is logged.  [StopIteration] alone drops the task and lets the
    loop go on. *)
Theorem task_exception_ends_loop (n : nat) (w w0 w1 : World) (cur : entry) (e : exn) :
  pick n w = Done (Picked cur) w0 ->
  callable (e_cb cur) = false ->
  resume_task (e_cb cur) (e_args cur) w0 = Raised e w1 ->
  loop w1 = loop w0 /\ log w1 = log w0 /\
  (e <> StopIteration -> forall m, (n < m)%nat -> run_forever m w = Raised e w1) /\
  (e = StopIteration -> run_forever (S n) w = run_forever n w1).
Proof.
  intros Hp Hc Hr.
  pose proof (resume_task_same_but_gens (e_cb cur) (e_args cur) w0) as Hs.
  rewrite Hr in Hs. destruct Hs as (Hl & _ & _ & _ & Hlog).
  repeat split; try assumption.
  - intros He m Hm. pose proof (run_forever_fuel (S n) m w Hm) as Hfuel.
    rewrite (run_forever_step _ _ _ _ Hp), dispatch_task, Hr in Hfuel by assumption.
    destruct e; try exact Hfuel. congruence.
  - intros ->. rewrite (run_forever_step _ _ _ _ Hp), dispatch_task, Hr by assumption.
    reflexivity.
Qed.

(** C1, as amended: when the resumed task yields [StopLoop(v)],
    [run_forever] returns [v]; [run_until_complete] calls [run_forever]
    without returning its value, so when the loop it started returns [v],
    [run_until_complete] itself returns [None]. *)
Theorem StopLoop_value_ends_in_run_forever :
  (forall n w w0 w1 cur v,
      pick n w = Done (Picked cur) w0 ->
      callable (e_cb cur) = false ->
      resume_task (e_cb cur) (e_args cur) w0 = Done (VObj StopLoop v) w1 ->
      forall m, (n < m)%nat -> run_forever m w = Done (Returned v) w1) /\
  (forall fuel coro w v w1,
      started_run_forever fuel coro w = Done (Returned v) w1 ->
      run_until_complete fuel coro w = Done (Returned VNone) w1).
Proof.
  split.
  - intros n w w0 w1 cur v Hp Hc Hr m Hm.
    pose proof (run_forever_fuel (S n) m w Hm) as Hfuel.
    rewrite (run_forever_step _ _ _ _ Hp), dispatch_task, Hr in Hfuel by assumption.
    exact Hfuel.
  - intros fuel coro w v w1. unfold started_run_forever, run_until_complete.
    rewrite !bind_run. destruct (_run_and_stop coro w) as [g w0|]; [|discriminate].
    rewrite !bind_run. destruct (call_soon g [] w0) as [[] w0'|]; [|discriminate].
    rewrite bind_run. intros ->. reflexivity.
Qed.

(** *** The scan of the high-priority table *)

Lemma same_queues_refl w : same_queues w w.
Proof. repeat split. Qed.

Lemma same_queues_trans w1 w2 w3 :
  same_queues w1 w2 -> same_queues w2 w3 -> same_queues w1 w3.
Proof.
  intros (?&?&?&?&?&?&?) (?&?&?&?&?&?&?). repeat split; congruence.
Qed.

Lemma call_same_queues f vs w :
  match call f vs w with
  | Done _ w' | Raised _ w' => same_queues w w' /\ hpq (loop w') = hpq (loop w)
  end.
Proof.
  destruct f as [| | | | |n| |k a]; cbn; try (repeat split; fail).
  - destruct (call_function n vs (env w)) as [[x|v] e']; repeat split.
  - destruct (issubclass k SleepMs); [destruct vs as [|? [|? ?]]|]; repeat split.
Qed.

Lemma hpq_setitem_run i j x w :
  hpq_setitem i j x w =
  match default [] (hpq (loop w)) !! i with
  | Some entry =>
      match setitem entry j x with
      | inl e => Raised e w
      | inr entry' =>
          Done tt (with_hpq_env w (Some (<[i := entry']> (default [] (hpq (loop w))))) (env w))
      end
  | None => Raised IndexError w
  end.
Proof.
  unfold hpq_setitem. rewrite bind_run.
  change (get_hpq w) with (Done (default [] (hpq (loop w))) w). cbv beta iota.
  destruct (default [] (hpq (loop w)) !! i) as [entry|]; [|reflexivity].
  rewrite bind_run, lift_run. destruct (setitem entry j x); reflexivity.
Qed.

Lemma hpq_setitem_same_queues i j x w :
  match hpq_setitem i j x w with
  | Done _ w' | Raised _ w' => same_queues w w'
  end.
Proof.
  rewrite hpq_setitem_run.
  destruct (default [] (hpq (loop w)) !! i) as [entry|]; [|repeat split].
  destruct (setitem entry j x); repeat split.
Qed.

Lemma hp_for_same_queues entries :
  forall i w,
    match hp_for entries i w with
    | Done r w' => same_queues w w' /\ (r = None -> hpq (loop w') = hpq (loop w))
    | Raised _ w' => same_queues w w'
    end.
Proof.
  induction entries as [|e rest IH]; intros i w; cbn [hp_for].
  - split; [apply same_queues_refl | reflexivity].
  - rewrite bind_run, lift_run. destruct (getitem e 0) as [x|p]; [apply same_queues_refl|].
    rewrite bind_run.
    assert (Hquiet : forall w0, same_queues w w0 -> hpq (loop w0) = hpq (loop w) ->
              match hp_for rest (S i) w0 with
              | Done r w' => same_queues w w' /\ (r = None -> hpq (loop w') = hpq (loop w))
              | Raised _ w' => same_queues w w'
              end).
    { intros w0 Hs Hh. specialize (IH (S i) w0).
      destruct (hp_for rest (S i) w0) as [r w'|x w'].
      - destruct IH as [Hs' Hh']. split; [eapply same_queues_trans; eassumption|].
        intros Hr. rewrite (Hh' Hr). exact Hh.
      - eapply same_queues_trans; eassumption. }
    destruct (truthy p).
    + rewrite bind_run. pose proof (call_same_queues p [] w) as Hc.
      destruct (call p [] w) as [r w0|x w0]; [|apply Hc].
      destruct Hc as [Hs Hh]. cbn. destruct (truthy r).
      * rewrite bind_run. pose proof (hpq_setitem_same_queues i 0 (VInt 0) w0) as Hset.
        destruct (hpq_setitem i 0 (VInt 0) w0) as [[] w'|x w'];
          [|eapply same_queues_trans; eassumption].
        assert (same_queues w w') as Hs' by (eapply same_queues_trans; eassumption).
        rewrite bind_run, lift_run. destruct (getitem e 1); [exact Hs'|].
        rewrite bind_run, lift_run. destruct (getitem e 2); [exact Hs'|].
        split; [exact Hs' | discriminate].
      * apply Hquiet; assumption.
    + cbn. apply Hquiet; [apply same_queues_refl | reflexivity].
Qed.

Lemma hp_check_same_queues w :
  match hp_check w with
  | Done r w' => same_queues w w' /\ (r = None -> loop w' = loop w)
  | Raised _ w' => same_queues w w'
  end.
Proof.
  unfold hp_check. rewrite bind_run. cbn.
  destruct (hpq (loop w)) as [entries|] eqn:Hq.
  - pose proof (hp_for_same_queues entries 0%nat w) as H.
    destruct (hp_for entries 0 w) as [r w'|x w']; [|exact H].
    destruct H as [Hs Hh]. split; [exact Hs|]. intros Hr. specialize (Hh Hr).
    destruct Hs as (?&?&?&_). destruct (loop w'), (loop w); cbn in *; congruence.
  - split; [apply same_queues_refl | reflexivity].
Qed.

(** *** One pass of the selection *)

Lemma ret_bind {A B} (a : A) (f : A -> M B) (w : World) : (@mret M _ A a ≫= f) w = f a w.
Proof. reflexivity. Qed.

Lemma select_pass_no_hp w w1 en rest :
  hp_check w = Done None w1 ->
  items (q (loop w)) = en :: rest ->
  select_pass w =
    if lpq_overdue (loop w) (clock w mod 2 ^ ticks_bits)
    then (cur ← lpq_pop; mret (Some cur)) w1
    else if nq_due (loop w) (clock w mod 2 ^ ticks_bits)
    then (cur ← q_pop; mret (Some cur)) w1
    else if lpq_due (loop w) (clock w mod 2 ^ ticks_bits)
    then (cur ← lpq_pop; mret (Some cur)) w1
    else (wait (wait_delay (loop w) (clock w mod 2 ^ ticks_bits)) ;; mret None) w1.
Proof.
  intros Hhp Hq.
  pose proof (hp_check_same_queues w) as Hs. rewrite Hhp in Hs.
  destruct Hs as [(_ & _ & _ & Hclock & _) Hloop]. specialize (Hloop eq_refl).
  unfold select_pass. rewrite bind_run, Hhp, bind_run.
  change (time w1) with (Done (clock w1 mod 2 ^ ticks_bits) w1). cbv beta iota.
  rewrite bind_run. change (get_loop w1) with (Done (loop w1) w1). cbv beta iota.
  rewrite Hclock, Hloop. set (tnow := clock w mod 2 ^ ticks_bits).
  unfold lpq_overdue, nq_due, lpq_due, wait_delay, utimeq_nonempty, utimeq_peektime.
  rewrite Hq.
  destruct (items (lpq (loop w))) as [|el lrest] eqn:Hl;
    [|destruct (0 <? _max_overdue_ms (loop w))];
    cbn [andb]; cbv beta iota delta [mbind M_bind mret M_ret lift];
    repeat match goal with
           | |- context [if ?c then _ else _] => destruct c
           end; reflexivity.
Qed.

Lemma lpq_pop_run w el rest :
  items (lpq (loop w)) = el :: rest ->
  lpq_pop w = Done el (with_lpq w (Utimeq (alloc (lpq (loop w))) rest)).
Proof.
  intros Hl. unfold lpq_pop. rewrite bind_run.
  change (get_loop w) with (Done (loop w) w). cbv beta iota.
  unfold utimeq_pop. rewrite Hl. reflexivity.
Qed.

Lemma q_pop_run w en rest :
  items (q (loop w)) = en :: rest ->
  q_pop w = Done en (with_q w (Utimeq (alloc (q (loop w))) rest)).
Proof.
  intros Hl. unfold q_pop. rewrite bind_run.
  change (get_loop w) with (Done (loop w) w). cbv beta iota.
  unfold utimeq_pop. rewrite Hl. reflexivity.
Qed.

(** The scan of a table is the scan of its first slots followed, when none
    of them fires, by the scan of the others. *)
Lemma hp_for_app pre rest :
  forall i w,
    hp_for (pre ++ rest) i w =
    match hp_for pre i w with
    | Done None w1 => hp_for rest (i + length pre) w1
    | r => r
    end.
Proof.
  induction pre as [|e pre IH]; intros i w.
  - cbn. rewrite Nat.add_0_r. reflexivity.
  - cbn [app hp_for length]. rewrite !bind_run.
    destruct (lift (getitem e 0) w) as [p w0|x w0]; [|reflexivity].
    rewrite !bind_run.
    destruct ((if truthy p then call p [] ≫= λ r, mret (truthy r) else mret false) w0)
      as [[|] w2|x w2]; [| |reflexivity].
    { rewrite !bind_run. destruct (hpq_setitem i 0 (VInt 0) w2) as [[] w3|x w3]; [|reflexivity].
      rewrite !bind_run, !lift_run. destruct (getitem e 1); [reflexivity|].
      rewrite !bind_run, !lift_run. destruct (getitem e 2); reflexivity. }
    rewrite IH. replace (S i + length pre)%nat with (i + S (length pre))%nat by lia.
    reflexivity.
Qed.

Lemma hp_check_fires pre f cb args post w w1 r e2 :
  hpq (loop w) = Some (pre ++ VList [VFun f; cb; args] :: post) ->
  hp_for pre 0 w = Done None w1 ->
  call_function f [] (env w1) = (inr r, e2) ->
  truthy r = true ->
  hp_check w = Done (Some (Entry 0 cb args))
    (with_hpq_env w1 (Some (pre ++ VList [VInt 0; cb; args] :: post)) e2).
Proof.
  intros Hq Hpre Hcall Hr.
  pose proof (hp_for_same_queues pre 0%nat w) as Hs. rewrite Hpre in Hs.
  destruct Hs as [Hs Hh]. specialize (Hh eq_refl).
  unfold hp_check. rewrite bind_run.
  change (get_loop w) with (Done (loop w) w). cbv beta iota.
  rewrite Hq, hp_for_app, Hpre. cbn [hp_for Nat.add].
  rewrite bind_run. change (lift (getitem (VList [VFun f; cb; args]) 0) w1)
    with (Done (VFun f) w1). cbv beta iota.
  cbn [truthy]. rewrite !bind_run. cbn [call]. rewrite Hcall. cbv beta iota.
  cbv beta iota delta [mret M_ret].
  rewrite Hr, bind_run, hpq_setitem_run. cbn [loop hpq].
  rewrite Hh, Hq. cbn [default from_option]. unfold id.
  rewrite list_lookup_middle by reflexivity.
  change (setitem (VList [VFun f; cb; args]) 0 (VInt 0)) with
    (inr (VList [VInt 0; cb; args]) : exn + pyval). cbv beta iota.
  rewrite insert_app_r_alt, Nat.sub_diag by lia.
  reflexivity.
Qed.

Lemma pick_select n w cur w1 :
  utimeq_nonempty (q (loop w)) = true ->
  select_pass w = Done (Some cur) w1 ->
  pick (S n) w = Done (Picked cur) w1.
Proof.
  intros Hq Hsel. unfold pick. rewrite bind_run.
  change (get_loop w) with (Done (loop w) w). cbv beta iota.
  rewrite Hq, bind_run. cbn [select]. rewrite bind_run, Hsel. reflexivity.
Qed.

Lemma lpq_overdue_true l tnow el lrest :
  items (lpq l) = el :: lrest ->
  0 < _max_overdue_ms l ->
  _max_overdue_ms l < - ticks_diff (e_time el) tnow ->
  lpq_overdue l tnow = true.
Proof.
  intros Hl H0 H1. unfold lpq_overdue. rewrite Hl.
  apply andb_true_intro. split; apply Z.ltb_lt; assumption.
Qed.

(** C5, as amended: when [max_overdue_ms > 0], the low-priority queue is
    not empty and its head is overdue by more than [max_overdue_ms], the
    next entry the loop runs is that head, even if the normal queue has due
    entries, provided no predicate of the high-priority table fires in that
    pass; with an empty normal queue the table is not looked at and the head
    is taken because it is due. *)
Theorem overdue_lpq_head_runs_next (n : nat) (w w1 : World) (el : entry) (lrest : list entry) :
  items (lpq (loop w)) = el :: lrest ->
  0 < _max_overdue_ms (loop w) ->
  _max_overdue_ms (loop w) < - ticks_diff (e_time el) (clock w mod 2 ^ ticks_bits) ->
  (if utimeq_nonempty (q (loop w)) then hp_check w = Done None w1 else w1 = w) ->
  pick (S n) w = Done (Picked el) (with_lpq w1 (Utimeq (alloc (lpq (loop w))) lrest)).
Proof.
  intros Hl H0 H1 Hhp.
  destruct (utimeq_nonempty (q (loop w))) eqn:Hq.
  - apply pick_select; [exact Hq|].
    unfold utimeq_nonempty in Hq. destruct (items (q (loop w))) as [|en rest] eqn:Hi;
      [discriminate|].
    rewrite (select_pass_no_hp _ _ _ _ Hhp Hi), (lpq_overdue_true _ _ _ _ Hl H0 H1).
    pose proof (hp_check_same_queues w) as Hs. rewrite Hhp in Hs.
    destruct Hs as [_ Hloop]. specialize (Hloop eq_refl).
    rewrite bind_run, (lpq_pop_run w1 el lrest) by (rewrite Hloop; exact Hl).
    rewrite Hloop. reflexivity.
  - subst w1. unfold pick. rewrite bind_run.
    change (get_loop w) with (Done (loop w) w). cbv beta iota.
    rewrite Hq. unfold utimeq_nonempty, utimeq_peektime. rewrite Hl.
    cbv beta iota delta [mbind M_bind mret M_ret lift time ticks_ms].
    destruct (Z.leb_spec (ticks_diff (e_time el) (clock w mod 2 ^ ticks_bits)) 0); [|lia].
    rewrite (lpq_pop_run w el lrest Hl). reflexivity.
Qed.

(** C4: in a pass of the selection with a non-empty normal queue the table
    of predicates comes first: when the scan fires, its payload is what the
    pass selects and what the iteration runs, with time field 0 and both
    timed queues untouched; the slot that fires is the first whose predicate
    is truthy.  When the scan fires nothing, the pass takes the overdue
    low-priority head, else the due head of the normal queue, else the due
    low-priority head, else it waits. *)
Theorem selection_precedence (n : nat) (w : World) (en : entry) (rest : list entry) :
  items (q (loop w)) = en :: rest ->
  (forall cur w1,
      hp_check w = Done (Some cur) w1 ->
      select_pass w = Done (Some cur) w1 /\
      pick (S n) w = Done (Picked cur) w1 /\
      q (loop w1) = q (loop w) /\ lpq (loop w1) = lpq (loop w)) /\
  (forall pre f cb args post w1 r e2,
      hpq (loop w) = Some (pre ++ VList [VFun f; cb; args] :: post) ->
      hp_for pre 0 w = Done None w1 ->
      call_function f [] (env w1) = (inr r, e2) ->
      truthy r = true ->
      pick (S n) w = Done (Picked (Entry 0 cb args))
        (with_hpq_env w1 (Some (pre ++ VList [VInt 0; cb; args] :: post)) e2)) /\
  (forall w1,
      hp_check w = Done None w1 ->
      select_pass w =
        if lpq_overdue (loop w) (clock w mod 2 ^ ticks_bits)
        then (cur ← lpq_pop; mret (Some cur)) w1
        else if nq_due (loop w) (clock w mod 2 ^ ticks_bits)
        then (cur ← q_pop; mret (Some cur)) w1
        else if lpq_due (loop w) (clock w mod 2 ^ ticks_bits)
        then (cur ← lpq_pop; mret (Some cur)) w1
        else (wait (wait_delay (loop w) (clock w mod 2 ^ ticks_bits)) ;; mret None) w1).
Proof.
  intros Hq.
  assert (Hne : utimeq_nonempty (q (loop w)) = true)
    by (unfold utimeq_nonempty; rewrite Hq; reflexivity).
  assert (Hfire : forall cur w1, hp_check w = Done (Some cur) w1 ->
                                 select_pass w = Done (Some cur) w1).
  { intros cur w1 Hhp. unfold select_pass. rewrite bind_run, Hhp. reflexivity. }
  split; [|split].
  - intros cur w1 Hhp. split; [apply Hfire, Hhp|].
    split; [apply pick_select; [exact Hne | apply Hfire, Hhp]|].
    pose proof (hp_check_same_queues w) as Hs. rewrite Hhp in Hs.
    destruct Hs as [(H1 & H2 & _) _]. split; assumption.
  - intros pre f cb args post w1 r e2 Ht Hpre Hcall Hr.
    apply pick_select; [exact Hne|]. apply Hfire.
    eapply hp_check_fires; eassumption.
  - intros w1 Hhp. eapply select_pass_no_hp; eassumption.
Qed.

(** *** The table created by [_schedule_hp] *)

Lemma getitem_callable func i :
  callable func = true -> getitem func i = inl TypeError.
Proof. destruct func; try discriminate; reflexivity. Qed.

(** C2, the code at the failing input: with [self.hpq] absent,
    [_schedule_hp] stores the flat list [[func, callback, args]]: a table of
    three elements, none of them a slot, where the other branch appends the
    slot [[func, callback, args]] as one element.  The next scan of the
    table, in [run_forever] or in [_schedule_hp], subscripts [func] itself
    and raises [TypeError]. *)
Theorem schedule_hp_absent_table_is_flat (w : World) (func callback args : pyval) :
  hpq (loop w) = None ->
  callable func = true ->
  _schedule_hp func callback args w
    = Done tt (with_hpq_env w (Some [func; callback; args]) (env w)) /\
  hp_check (with_hpq_env w (Some [func; callback; args]) (env w))
    = Raised TypeError (with_hpq_env w (Some [func; callback; args]) (env w)) /\
  (forall f2 cb2 args2,
      _schedule_hp f2 cb2 args2 (with_hpq_env w (Some [func; callback; args]) (env w))
      = Raised TypeError (with_hpq_env w (Some [func; callback; args]) (env w))) /\
  (utimeq_nonempty (q (loop w)) = true ->
   forall n, run_forever (S (S n)) (with_hpq_env w (Some [func; callback; args]) (env w))
             = Raised TypeError (with_hpq_env w (Some [func; callback; args]) (env w))) /\
  (forall w2, hpq (loop w2) = Some [] ->
      _schedule_hp func callback args w2
      = Done tt (with_hpq_env w2 (Some [VList [func; callback; args]]) (env w2))).
Proof.
  intros Hnone Hc.
  set (w' := with_hpq_env w (Some [func; callback; args]) (env w)).
  assert (Hscan : hp_check w' = Raised TypeError w').
  { unfold hp_check. rewrite bind_run. cbn. rewrite bind_run, lift_run.
    rewrite (getitem_callable _ _ Hc). reflexivity. }
  split; [|split; [|split; [|split]]].
  - unfold _schedule_hp. rewrite bind_run.
    change (get_loop w) with (Done (loop w) w). cbv beta iota. rewrite Hnone.
    reflexivity.
  - exact Hscan.
  - intros f2 cb2 args2. unfold _schedule_hp. rewrite bind_run. cbn.
    rewrite !bind_run, lift_run, (getitem_callable _ _ Hc). reflexivity.
  - intros Hq n. cbn [run_forever]. rewrite bind_run. unfold iteration.
    rewrite bind_run. unfold pick. rewrite bind_run. cbn -[select].
    rewrite Hq, bind_run. cbn [select]. rewrite bind_run. unfold select_pass.
    rewrite bind_run. fold w'. rewrite Hscan. reflexivity.
  - intros w2 H2. unfold _schedule_hp. rewrite bind_run.
    change (get_loop w2) with (Done (loop w2) w2). cbv beta iota. rewrite H2.
    cbn [_schedule_hp_for]. rewrite ret_bind, bind_run.
    change (get_hpq w2) with (Done (default [] (hpq (loop w2))) w2).
    cbv beta iota. rewrite H2. reflexivity.
Qed.

(** *** Seconds to milliseconds *)

(** [int] on a finite float is the quotient towards zero of its value
    [(-1)^s * m * 2^e]. *)
Lemma float_int_finite s m e :
  float_int (S754_finite s m e)
  = inr (Z.quot ((if s then - Z.pos m else Z.pos m) * 2 ^ Z.max e 0) (2 ^ Z.max (- e) 0)).
Proof.
  unfold float_int. f_equal.
  destruct (Z.leb_spec 0 e) as [He|He].
  - rewrite Z.max_l, Z.max_r by lia. rewrite Z.shiftl_mul_pow2 by lia.
    change (2 ^ 0) with 1. rewrite Z.quot_1_r. destruct s; lia.
  - rewrite Z.max_r, Z.max_l by lia. rewrite Z.shiftr_div_pow2 by lia.
    change (2 ^ 0) with 1. rewrite Z.mul_1_r.
    assert (0 < 2 ^ (- e)) by (apply Z.pow_pos_nonneg; lia).
    destruct s.
    + rewrite Z.quot_opp_l by lia. rewrite Z.quot_div_nonneg by lia. reflexivity.
    + rewrite Z.quot_div_nonneg by lia. reflexivity.
Qed.

(** C9: the seconds of [Sleep] and [After] and the delays of [call_later]
    and [call_after] all go through [int(secs * 1000)]: the directive leaves
    that integer as [delay], for the normal queue ([Sleep]) or the
    low-priority one ([After]), and the task or callback is pushed under the
    key [ticks_add(now, int(secs * 1000))].  The conversion is exact on
    integers and, on a float, cuts the binary64 product towards zero:
    [Sleep(0.0019)] sleeps 1 ms, not 2. *)
Theorem seconds_are_truncated :
  (forall cb secs w,
      interpret cb (VObj Sleep secs) w =
      match int_mul_1000 secs with
      | inl e => Raised e w
      | inr d => Done (Reenqueue (VInt d) None true) w
      end) /\
  (forall cb secs w,
      interpret cb (VObj After secs) w =
      match int_mul_1000 secs with
      | inl e => Raised e w
      | inr d => Done (Reenqueue (VInt d) None false) w
      end) /\
  (forall d cb args w,
      reenqueue (VInt d) None true cb args w
        = q_push (ticks_add (clock w mod 2 ^ ticks_bits) d) cb args w /\
      reenqueue (VInt d) None false cb args w
        = lpq_push (ticks_add (clock w mod 2 ^ ticks_bits) d) cb args w) /\
  (forall delay cb args w,
      call_later delay cb args w =
      match int_mul_1000 delay with
      | inl e => Raised e w
      | inr d => q_push (ticks_add (clock w mod 2 ^ ticks_bits) d) cb (VTuple args) w
      end) /\
  (forall delay cb args w,
      call_after delay cb args w =
      match int_mul_1000 delay with
      | inl e => Raised e w
      | inr d => lpq_push (ticks_add (clock w mod 2 ^ ticks_bits) d) cb (VTuple args) w
      end) /\
  (forall n, int_mul_1000 (VInt n) = inr (n * 1000)) /\
  (forall x s m e,
      SFmul prec emax x f1000 = S754_finite s m e ->
      int_mul_1000 (VFloat x)
      = inr (Z.quot ((if s then - Z.pos m else Z.pos m) * 2 ^ Z.max e 0)
                    (2 ^ Z.max (- e) 0))) /\
  (forall x b, SFmul prec emax x f1000 = S754_zero b -> int_mul_1000 (VFloat x) = inr 0) /\
  SFmul prec emax f0_0019 f1000 = S754_finite false 8556839292003942 (-52) /\
  int_mul_1000 (VFloat f0_0019) = inr 1.
Proof.
  repeat apply conj.
  - intros cb secs w. change (interpret cb (VObj Sleep secs))
      with (d ← lift (int_mul_1000 secs); mret (Reenqueue (VInt d) None true)).
    rewrite bind_run, lift_run. destruct (int_mul_1000 secs); reflexivity.
  - intros cb secs w. change (interpret cb (VObj After secs))
      with (d ← lift (int_mul_1000 secs); mret (Reenqueue (VInt d) None false)).
    rewrite bind_run, lift_run. destruct (int_mul_1000 secs); reflexivity.
  - intros d cb args w. split; reflexivity.
  - intros delay cb args w. unfold call_later. rewrite bind_run. cbn.
    rewrite bind_run, lift_run. destruct (int_mul_1000 delay); reflexivity.
  - intros delay cb args w. unfold call_after. rewrite bind_run. cbn.
    rewrite bind_run, lift_run. destruct (int_mul_1000 delay); reflexivity.
  - reflexivity.
  - intros x s m e Hx. cbn [int_mul_1000]. rewrite Hx. apply float_int_finite.
  - intros x b Hx. cbn [int_mul_1000]. rewrite Hx. reflexivity.
  - vm_compute. reflexivity.
  - vm_compute. reflexivity.
Qed.

End Properties.

(** C7, witness: the argument [42 + (42 << 16)] of [get_event_loop]. *)
Lemma init_capacities_witness :
  alloc (q (__init__ 2752554)) = 42 /\ alloc (lpq (__init__ 2752554)) = 42.
Proof.
  destruct (init_capacities 2752554 ltac:(lia)) as (Hq & Hl & _).
  split; [rewrite Hq | rewrite Hl]; reflexivity.
Defined.

(** C7, counterexample: at [2^32] the low-priority capacity is [65536],
    not the masked field, which is [0]. *)
Lemma init_lpqlen_unmasked :
  alloc (lpq (__init__ (2 ^ 32))) = 65536 /\
  Z.land (Z.shiftr (2 ^ 32) 16) 65535 = 0.
Proof. split; reflexivity. Qed.

(** C10, witness: the program state right after [EventLoop()]. *)
Lemma default_loop_has_no_lpq_witness :
  call_after_ms_ (VInt 100) (VFun 2) (VTuple []) (@boot flag_platform 42 0 [] false)
  = Raised QueueFull (@boot flag_platform 42 0 [] false).
Proof.
  destruct (@default_loop_has_no_lpq flag_platform (@boot flag_platform 42 0 [] false) eq_refl)
    as (_ & H & _).
  destruct (H (VInt 100) (VFun 2) (VTuple [])) as (e & -> & He).
  rewrite (He 100 eq_refl). reflexivity.
Defined.

(** C1, counterexample: the task yields [SleepMs(10)], [SleepMs(20)] and
    [StopLoop(42)]; the loop that [run_until_complete] starts returns 42
    after 30 ms, and [run_until_complete] returns [None]. *)
Lemma run_until_complete_drops_42 :
  (exists w1, @started_run_forever flag_platform 10 0 (@boot flag_platform 42 0 sleep_chain false)
              = Done (Returned (VInt 42)) w1 /\ clock w1 = 30) /\
  (exists w1, @run_until_complete flag_platform 10 0 (@boot flag_platform 42 0 sleep_chain false)
              = Done (Returned VNone) w1) /\
  VNone <> VInt 42.
Proof.
  split; [|split].
  - eexists. split; vm_compute; reflexivity.
  - eexists. vm_compute. reflexivity.
  - discriminate.
Qed.

(** C1, witness: the same run. *)
Lemma StopLoop_value_ends_in_run_forever_witness :
  exists w1, @run_until_complete flag_platform 10 0 (@boot flag_platform 42 0 sleep_chain false)
             = Done (Returned VNone) w1.
Proof.
  eexists.
  eapply (proj2 (@StopLoop_value_ends_in_run_forever flag_platform)) with (v := VInt 42).
  vm_compute. reflexivity.
Defined.

(** C3, counterexample: a task whose first resumption raises an exception
    of its own; [run_forever] ends with that exception, nothing is logged,
    and both queues are empty. *)
Lemma raising_task_tears_down_loop :
  exists w1, run_forever 5 raising_task_world = Raised (UserException 7) w1 /\
             log w1 = [] /\ items (q (loop w1)) = [] /\ items (lpq (loop w1)) = [].
Proof. eexists. repeat split; vm_compute; reflexivity. Qed.

(** C3, witness: the same task. *)
Lemma task_exception_ends_loop_witness :
  exists w1, run_forever 2 raising_task_world = Raised (UserException 7) w1.
Proof.
  edestruct (@task_exception_ends_loop flag_platform 1 raising_task_world)
    as (_ & _ & H & _).
  - vm_compute. reflexivity.
  - reflexivity.
  - vm_compute. reflexivity.
  - eexists. apply H; [discriminate | lia].
Defined.

(** C8, witness: a task that yields a float. *)
Lemma unknown_directive_is_fatal_witness :
  exists m w1, run_forever 2 float_yield_world = Raised (AssertionError m) w1.
Proof.
  edestruct (@unknown_directive_is_fatal flag_platform 1 float_yield_world)
    as (m & _ & _ & Hrun & _).
  - vm_compute. reflexivity.
  - reflexivity.
  - vm_compute. reflexivity.
  - reflexivity.
  - exists m. eexists. apply Hrun. lia.
Defined.


(** C4, witness: flag set, so the predicate of task 0 fires while tasks 1
    and 2 are due: task 0 is picked. *)
Lemma selection_precedence_witness :
  exists w1, @pick flag_platform 1 (ready_world true)
             = Done (Picked (Entry 0 (VGen 0) (VTuple []))) w1.
Proof.
  destruct (@selection_precedence flag_platform 0 (ready_world true)
              (Entry 0 (VGen 2) (VTuple [])) [] eq_refl) as (_ & H & _).
  eexists.
  apply (H [] 0%nat (VGen 0) (VTuple []) [] (ready_world true) (VInt 1) true);
    reflexivity.
Defined.

(** C5, counterexample: [max_overdue_ms] is 50 and the low-priority head is
    overdue by 100 ms, yet the entry picked is the payload of the fired
    predicate; the overdue head stays in its queue. *)
Lemma fired_predicate_precedes_overdue_head :
  0 < _max_overdue_ms (loop (ready_world true)) /\
  items (lpq (loop (ready_world true))) = [Entry 0 (VGen 1) (VTuple [])] /\
  _max_overdue_ms (loop (ready_world true))
    < - @ticks_diff flag_platform 0 (clock (ready_world true) mod 2 ^ 32) /\
  exists w1,
    @pick flag_platform 1 (ready_world true)
      = Done (Picked (Entry 0 (VGen 0) (VTuple []))) w1 /\
    items (lpq (loop w1)) = [Entry 0 (VGen 1) (VTuple [])].
Proof.
  repeat split; try (vm_compute; reflexivity).
  eexists. split; vm_compute; reflexivity.
Qed.

(** C5, witness: the same loop with the flag clear. *)
Lemma overdue_lpq_head_runs_next_witness :
  exists w1, @pick flag_platform 1 (ready_world false)
             = Done (Picked (Entry 0 (VGen 1) (VTuple []))) w1.
Proof.
  eexists.
  apply (@overdue_lpq_head_runs_next flag_platform 0 (ready_world false) (ready_world false)
           (Entry 0 (VGen 1) (VTuple [])) []); vm_compute; reflexivity.
Defined.

(** C2, witness: [_schedule_hp] on a fresh loop. *)
Lemma schedule_hp_absent_table_is_flat_witness :
  hpq (loop (@state_after flag_platform _ (_schedule_hp (VFun 0) (VGen 0) (VTuple []))
               (@boot flag_platform 42 0 [Script []] false)))
  = Some [VFun 0; VGen 0; VTuple []].
Proof.
  destruct (@schedule_hp_absent_table_is_flat flag_platform
              (@boot flag_platform 42 0 [Script []] false)
              (VFun 0) (VGen 0) (VTuple []) eq_refl eq_refl) as (H & _).
  unfold state_after. rewrite H. reflexivity.
Defined.

(** C9, witness: the product [0.0019 * 1000] is the float
    [8556839292003942 * 2^-52], a little under 1.9, and its integer part
    is 1. *)
Lemma seconds_are_truncated_witness :
  int_mul_1000 (VFloat f0_0019) = inr (Z.quot (8556839292003942 * 2 ^ 0) (2 ^ 52)).
Proof.
  destruct (@seconds_are_truncated flag_platform) as (_ & _ & _ & _ & _ & _ & H & _).
  apply (H f0_0019 false 8556839292003942%positive (-52)).
  vm_compute. reflexivity.
Defined.

(** ** Further properties of the code *)

Section Coverage.
Context `{P : Platform}.

(** *** The high-priority table *)

Lemma allocate_hpq_run size w :
  allocate_hpq size w =
  Done tt (with_hpq_env w
             (Some (default [] (hpq (loop w)) ++
                    replicate (Z.to_nat (size - Z.of_nat (length (default [] (hpq (loop w))))))
                              empty_slot))
             (env w)).
Proof.
  unfold allocate_hpq. rewrite bind_run.
  change (get_loop w) with (Done (loop w) w). cbv beta iota.
  destruct (hpq (loop w)) as [t|] eqn:Ht.
  - rewrite ret_bind, bind_run.
    change (get_hpq w) with (Done (default [] (hpq (loop w))) w). cbv beta iota.
    rewrite Ht. unfold set_hpq. rewrite bind_run.
    change (get_loop w) with (Done (loop w) w). reflexivity.
  - reflexivity.
Qed.

(** X1: [allocate_hpq(size)] never fails and only grows the table: the
    slots already there stay first and unchanged, the table ends with
    [max(len, size)] slots, the added ones are all [[0, 0, 0]], and a second
    call with the same size changes nothing. *)
Theorem allocate_hpq_grows_table (size : Z) (w : World) :
  exists t',
    allocate_hpq size w = Done tt (with_hpq_env w (Some t') (env w)) /\
    length t' = Nat.max (length (default [] (hpq (loop w)))) (Z.to_nat size) /\
    take (length (default [] (hpq (loop w)))) t' = default [] (hpq (loop w)) /\
    (forall i, (length (default [] (hpq (loop w))) <= i < length t')%nat ->
               t' !! i = Some empty_slot) /\
    allocate_hpq size (with_hpq_env w (Some t') (env w))
      = Done tt (with_hpq_env w (Some t') (env w)).
Proof.
  set (t := default [] (hpq (loop w))).
  set (k := Z.to_nat (size - Z.of_nat (length t))).
  exists (t ++ replicate k empty_slot).
  assert (Hlen : length (t ++ replicate k empty_slot)
                 = Nat.max (length t) (Z.to_nat size)).
  { rewrite length_app, length_replicate. unfold k. lia. }
  split; [apply allocate_hpq_run|]. split; [exact Hlen|]. split; [|split].
  - rewrite take_app_length. reflexivity.
  - intros i [Hi1 Hi2]. rewrite lookup_app_r by exact Hi1.
    apply lookup_replicate_2. rewrite length_app, length_replicate in Hi2. lia.
  - rewrite allocate_hpq_run. cbn [with_hpq_env loop hpq default from_option env].
    unfold id. rewrite Hlen.
    replace (Z.to_nat (size - Z.of_nat (Nat.max (length t) (Z.to_nat size)))) with 0%nat by lia.
    cbn [replicate]. rewrite app_nil_r. reflexivity.
Qed.

Lemma occupied_inv e :
  occupied e = true -> exists p, getitem e 0 = inr p /\ truthy p = true.
Proof.
  unfold occupied. destruct (getitem e 0) as [x|p]; [discriminate|]. eauto.
Qed.

Lemma schedule_hp_for_occupied pre rest func callback args :
  forallb occupied pre = true ->
  forall i w,
    _schedule_hp_for (pre ++ rest) i func callback args w
    = _schedule_hp_for rest (i + length pre) func callback args w.
Proof.
  induction pre as [|e pre IH]; intros Hocc i w.
  - cbn. rewrite Nat.add_0_r. reflexivity.
  - cbn [forallb] in Hocc. apply andb_prop in Hocc as [He Hpre].
    destruct (occupied_inv e He) as (p & Hg & Hp).
    cbn [app _schedule_hp_for length]. rewrite bind_run, lift_run, Hg, Hp.
    cbn [negb]. rewrite (IH Hpre). f_equal. lia.
Qed.

Lemma schedule_hp_for_empty p c0 a0 rest i func callback args w t :
  truthy p = false ->
  hpq (loop w) = Some t ->
  t !! i = Some (VList [p; c0; a0]) ->
  _schedule_hp_for (VList [p; c0; a0] :: rest) i func callback args w
  = Done true (with_hpq_env w (Some (<[i := VList [func; callback; args]]> t)) (env w)).
Proof.
  intros Hp Ht Hi. pose proof (lookup_lt_Some _ _ _ Hi) as Hlt.
  cbn [_schedule_hp_for]. rewrite bind_run.
  change (lift (getitem (VList [p; c0; a0]) 0) w) with (Done p w). cbv beta iota.
  rewrite Hp. cbn [negb].
  rewrite bind_run, hpq_setitem_run, Ht. cbn [default from_option]. unfold id.
  rewrite Hi.
  change (setitem (VList [p; c0; a0]) 0 func) with (inr (VList [func; c0; a0]) : exn + pyval).
  cbv beta iota.
  rewrite bind_run, hpq_setitem_run. cbn [with_hpq_env loop hpq default from_option env].
  unfold id. rewrite list_lookup_insert_eq by exact Hlt.
  change (setitem (VList [func; c0; a0]) 1 callback)
    with (inr (VList [func; callback; a0]) : exn + pyval).
  cbv beta iota.
  rewrite bind_run, hpq_setitem_run. cbn [with_hpq_env loop hpq default from_option env].
  unfold id. rewrite list_lookup_insert_eq by (rewrite length_insert; exact Hlt).
  change (setitem (VList [func; callback; a0]) 2 args)
    with (inr (VList [func; callback; args]) : exn + pyval).
  cbv beta iota.
  rewrite !list_insert_insert_eq. reflexivity.
Qed.

Lemma schedule_hp_reuse pre p c0 a0 post func callback args w :
  hpq (loop w) = Some (pre ++ VList [p; c0; a0] :: post) ->
  forallb occupied pre = true ->
  truthy p = false ->
  _schedule_hp func callback args w
  = Done tt (with_hpq_env w (Some (pre ++ VList [func; callback; args] :: post)) (env w)).
Proof.
  intros Ht Hocc Hp. unfold _schedule_hp. rewrite bind_run.
  change (get_loop w) with (Done (loop w) w). cbv beta iota. rewrite Ht.
  rewrite bind_run, (schedule_hp_for_occupied _ _ _ _ _ Hocc).
  rewrite (schedule_hp_for_empty _ _ _ _ _ _ _ _ _ _ Hp Ht)
    by (apply list_lookup_middle; reflexivity).
  cbv beta iota. rewrite insert_app_r_alt by (cbn; lia).
  replace (0 + length pre - length pre)%nat with 0%nat by lia. reflexivity.
Qed.

Lemma schedule_hp_append t func callback args w :
  hpq (loop w) = Some t ->
  forallb occupied t = true ->
  _schedule_hp func callback args w
  = Done tt (with_hpq_env w (Some (t ++ [VList [func; callback; args]])) (env w)).
Proof.
  intros Ht Hocc. unfold _schedule_hp. rewrite bind_run.
  change (get_loop w) with (Done (loop w) w). cbv beta iota. rewrite Ht.
  rewrite bind_run. rewrite <- (app_nil_r t) at 1.
  rewrite (schedule_hp_for_occupied _ _ _ _ _ Hocc). cbn [_schedule_hp_for].
  cbv beta iota delta [mret M_ret]. rewrite bind_run.
  change (get_hpq w) with (Done (default [] (hpq (loop w))) w). cbv beta iota.
  rewrite Ht. unfold set_hpq. rewrite bind_run.
  change (get_loop w) with (Done (loop w) w). reflexivity.
Qed.

(** X2: on a table whose first slots are taken and whose next slot is
    empty, [_schedule_hp] writes the triple into that slot in place: the
    table keeps its length and its other slots; on a table with no empty
    slot it appends one slot holding the triple. *)
Theorem schedule_hp_fills_first_empty_slot
    (pre post : list pyval) (p c0 a0 func callback args : pyval) (w : World) :
  forallb occupied pre = true ->
  truthy p = false ->
  (hpq (loop w) = Some (pre ++ VList [p; c0; a0] :: post) ->
   _schedule_hp func callback args w
   = Done tt (with_hpq_env w (Some (pre ++ VList [func; callback; args] :: post)) (env w))) /\
  (hpq (loop w) = Some pre ->
   _schedule_hp func callback args w
   = Done tt (with_hpq_env w (Some (pre ++ [VList [func; callback; args]])) (env w))).
Proof.
  intros Hocc Hp. split; intros Ht.
  - eapply schedule_hp_reuse; eassumption.
  - apply schedule_hp_append; assumption.
Qed.

(** X3: a slot is recycled.  After [_schedule_hp(f, cb, args)] has filled
    the first empty slot, a scan in which the earlier predicates stay false
    and [f()] is truthy hands back exactly [cb] and [args], with time field
    0, and empties the slot again; the next [_schedule_hp] lands in the same
    slot, so the table never grows. *)
Theorem hp_slot_is_recycled
    (pre post : list pyval) (p c0 a0 cb args : pyval) (f : nat)
    (w w1 : World) (r : pyval) (e2 : Env) :
  hpq (loop w) = Some (pre ++ VList [p; c0; a0] :: post) ->
  forallb occupied pre = true ->
  truthy p = false ->
  hp_for pre 0 (with_hpq_env w (Some (pre ++ VList [VFun f; cb; args] :: post)) (env w))
    = Done None w1 ->
  call_function f [] (env w1) = (inr r, e2) ->
  truthy r = true ->
  (_schedule_hp (VFun f) cb args ;; hp_check) w
    = Done (Some (Entry 0 cb args))
        (with_hpq_env w1 (Some (pre ++ VList [VInt 0; cb; args] :: post)) e2) /\
  forall f2 cb2 args2,
    _schedule_hp f2 cb2 args2
      (with_hpq_env w1 (Some (pre ++ VList [VInt 0; cb; args] :: post)) e2)
    = Done tt (with_hpq_env w1 (Some (pre ++ VList [f2; cb2; args2] :: post)) e2).
Proof.
  intros Ht Hocc Hp Hpre Hcall Hr. split.
  - rewrite bind_run, (schedule_hp_reuse _ _ _ _ _ _ _ _ _ Ht Hocc Hp).
    cbv beta iota. eapply hp_check_fires; try eassumption. reflexivity.
  - intros f2 cb2 args2.
    erewrite schedule_hp_reuse; [reflexivity|reflexivity|exact Hocc|reflexivity].
Qed.

Lemma ret_run {A} (a : A) (w : World) : @mret M _ A a w = Done a w.
Proof. reflexivity. Qed.

Lemma first_unoccupied (t : list pyval) :
  forallb occupied t = true \/
  exists pre e post, t = pre ++ e :: post /\ forallb occupied pre = true /\ occupied e = false.
Proof.
  induction t as [|e t IH]; [left; reflexivity|].
  destruct (occupied e) eqn:He.
  - destruct IH as [IH|(pre & e' & post & -> & Hpre & He')].
    + left. cbn. rewrite He, IH. reflexivity.
    + right. exists (e :: pre), e', post. cbn. rewrite He, Hpre. auto.
  - right. exists [], e, t. auto.
Qed.

Lemma is_slot_inv e : is_slot e = true -> exists a b c, e = VList [a; b; c].
Proof.
  destruct e as [| | | |[|a [|b [|c [|]]]]| | |]; try discriminate. eauto.
Qed.

Lemma hp_for_keeps_table entries :
  forall i w t,
    hpq (loop w) = Some t -> forallb is_slot t = true ->
    match hp_for entries i w with
    | Done _ w' | Raised _ w' =>
        exists t', hpq (loop w') = Some t' /\ forallb is_slot t' = true /\
                   length t' = length t
    end.
Proof.
  induction entries as [|e rest IH]; intros i w t Ht Hwf; cbn [hp_for].
  - exists t. auto.
  - rewrite bind_run, lift_run. destruct (getitem e 0) as [x|p]; [exists t; auto|].
    rewrite bind_run.
    destruct (truthy p).
    + rewrite bind_run. pose proof (call_same_queues p [] w) as Hc.
      destruct (call p [] w) as [r w0|x w0]; destruct Hc as [_ Hh];
        [|exists t; rewrite Hh; auto].
      rewrite ret_run.
      destruct (truthy r).
      * rewrite bind_run, hpq_setitem_run, Hh, Ht. cbn [default from_option]. unfold id.
        destruct (t !! i) as [slot|] eqn:Hi; [|exists t; rewrite Hh; auto].
        assert (is_slot slot = true) as Hs.
        { rewrite forallb_forall in Hwf. apply Hwf.
          apply list_elem_of_In, list_elem_of_lookup. eauto. }
        destruct (is_slot_inv _ Hs) as (a & b & c & ->).
        change (setitem (VList [a; b; c]) 0 (VInt 0))
          with (inr (VList [VInt 0; b; c]) : exn + pyval). cbv beta iota.
        assert (exists t', hpq (loop (with_hpq_env w0
                    (Some (<[i:=VList [VInt 0; b; c]]> t)) (env w0))) = Some t' /\
                  forallb is_slot t' = true /\ length t' = length t) as Hres.
        { eexists. split; [reflexivity|]. split; [|apply length_insert].
          apply forallb_forall. intros x Hx.
          apply list_elem_of_In, list_elem_of_lookup in Hx as [j Hj].
          apply list_lookup_insert_Some in Hj as [(_ & <- & _)|(_ & Hj)]; [reflexivity|].
          rewrite forallb_forall in Hwf. apply Hwf.
          apply list_elem_of_In, list_elem_of_lookup. eauto. }
        rewrite bind_run, lift_run. destruct (getitem e 1); [exact Hres|].
        rewrite bind_run, lift_run. destruct (getitem e 2); exact Hres.
      * apply IH; [rewrite Hh; exact Ht | exact Hwf].
    + rewrite ret_run. apply IH; assumption.
Qed.

(** X4: a table made of three-element slots stays one: on such a table
    [_schedule_hp] never raises and leaves a table of slots with the same
    length or one more, [allocate_hpq] leaves a table of slots, and the scan
    of [run_forever], whatever its outcome, leaves a table of slots of the
    same length. *)
Theorem table_stays_well_formed (t : list pyval) (w : World) :
  hpq (loop w) = Some t ->
  forallb is_slot t = true ->
  (forall func callback args, exists t',
      _schedule_hp func callback args w = Done tt (with_hpq_env w (Some t') (env w)) /\
      forallb is_slot t' = true /\
      (length t <= length t' <= S (length t))%nat) /\
  (forall size, exists t',
      allocate_hpq size w = Done tt (with_hpq_env w (Some t') (env w)) /\
      forallb is_slot t' = true) /\
  match hp_check w with
  | Done _ w' | Raised _ w' =>
      exists t', hpq (loop w') = Some t' /\ forallb is_slot t' = true /\
                 length t' = length t
  end.
Proof.
  intros Ht Hwf. split; [|split].
  - intros func callback args.
    destruct (first_unoccupied t) as [Hocc|(pre & e & post & -> & Hpre & He)].
    + exists (t ++ [VList [func; callback; args]]).
      split; [apply schedule_hp_append; assumption|].
      split; [rewrite forallb_app, Hwf; reflexivity|].
      rewrite length_app. cbn. lia.
    + rewrite forallb_app in Hwf. apply andb_prop in Hwf as [Hwf1 Hwf2].
      cbn [forallb] in Hwf2. apply andb_prop in Hwf2 as [Hs Hwf2].
      destruct (is_slot_inv _ Hs) as (p & c0 & a0 & ->).
      exists (pre ++ VList [func; callback; args] :: post).
      split; [eapply schedule_hp_reuse; eassumption|].
      split; [rewrite forallb_app, Hwf1; cbn; exact Hwf2|].
      rewrite !length_app. cbn. lia.
  - intros size. eexists. split; [apply allocate_hpq_run|].
    rewrite Ht. cbn [default from_option]. unfold id.
    rewrite forallb_app, Hwf. cbn [andb].
    apply forallb_forall. intros x Hx. apply list_elem_of_In in Hx.
    apply elem_of_replicate in Hx as [-> _]. reflexivity.
  - unfold hp_check. rewrite bind_run.
    change (get_loop w) with (Done (loop w) w). cbv beta iota. rewrite Ht.
    apply hp_for_keeps_table; assumption.
Qed.

(** *** The loop with an empty normal queue *)

Lemma pick_empty_nq n w :
  items (q (loop w)) = [] ->
  pick n w =
  match items (lpq (loop w)) with
  | el :: lrest =>
      if ticks_diff (e_time el) (clock w mod 2 ^ ticks_bits) <=? 0
      then Done (Picked el) (with_lpq w (Utimeq (alloc (lpq (loop w))) lrest))
      else (wait (-1) ;; mret Idle) w
  | [] => (wait (-1) ;; mret Idle) w
  end.
Proof.
  intros Hq. unfold pick. rewrite bind_run.
  change (get_loop w) with (Done (loop w) w). cbv beta iota.
  unfold utimeq_nonempty, utimeq_peektime. rewrite Hq.
  destruct (items (lpq (loop w))) as [|el lrest] eqn:Hl.
  - reflexivity.
  - cbv beta iota delta [mbind M_bind mret M_ret lift time ticks_ms].
    destruct (ticks_diff (e_time el) (clock w mod 2 ^ ticks_bits) <=? 0); [|reflexivity].
    rewrite (lpq_pop_run w el lrest Hl). reflexivity.
Qed.

Lemma wait_nothing w : wait (-1) w = Done tt w.
Proof.
  unfold wait. rewrite bind_run, debug_skip. unfold sleep_ms.
  change (Z.max 0 (-1)) with 0. rewrite Z.add_0_r. destruct w; reflexivity.
Qed.

(** X5: the table is looked at only while the normal queue holds something.
    With an empty normal queue the selection evaluates no predicate and
    leaves the table alone; with both timed queues empty the loop goes
    round forever in the same state, whatever the table holds, so a task
    waiting on a predicate is not resumed even when the predicate holds. *)
Theorem empty_queues_starve_hpq (w : World) :
  items (q (loop w)) = [] ->
  (forall n, match pick n w with
             | Done _ w' | Raised _ w' =>
                 env w' = env w /\ hpq (loop w') = hpq (loop w)
             end) /\
  (items (lpq (loop w)) = [] -> forall n, run_forever n w = Done Running w).
Proof.
  intros Hq. split.
  - intros n. rewrite (pick_empty_nq n w Hq).
    destruct (items (lpq (loop w))) as [|el lrest];
      [|destruct (ticks_diff (e_time el) (clock w mod 2 ^ ticks_bits) <=? 0)];
      rewrite ?bind_run, ?wait_nothing; split; reflexivity.
  - intros Hl n. induction n as [|n IH]; [reflexivity|].
    cbn [run_forever]. rewrite bind_run. unfold iteration.
    rewrite bind_run, (pick_empty_nq n w Hq), Hl, bind_run, wait_nothing.
    exact IH.
Qed.

(** *** Construction and scheduling *)

(** X6: [get_event_loop(qlen, lpqlen)] packs the two capacities into one
    integer and [EventLoop.__init__] unpacks them: the normal queue gets
    [qlen mod 2^16] and the low-priority queue gets [lpqlen + qlen // 2^16],
    so both come back unchanged when [0 <= qlen < 2^16], whereas a larger
    [qlen] spills into the low-priority capacity.  Once a loop exists, the
    arguments of later calls are ignored. *)
Theorem get_event_loop_round_trip (qlen lpqlen : Z) :
  alloc (q (get_event_loop qlen lpqlen None)) = qlen mod 65536 /\
  alloc (lpq (get_event_loop qlen lpqlen None)) = lpqlen + qlen / 65536 /\
  (0 <= qlen < 65536 ->
   alloc (q (get_event_loop qlen lpqlen None)) = qlen /\
   alloc (lpq (get_event_loop qlen lpqlen None)) = lpqlen) /\
  (forall qlen' lpqlen' l, get_event_loop qlen' lpqlen' (Some l) = l).
Proof.
  assert (Hq : alloc (q (get_event_loop qlen lpqlen None)) = qlen mod 65536).
  { cbn. change 65535 with (Z.ones 16). rewrite Z.land_ones by lia.
    rewrite Z.shiftl_mul_pow2 by lia. change (2 ^ 16) with 65536.
    apply Z.mod_add. lia. }
  assert (Hl : alloc (lpq (get_event_loop qlen lpqlen None)) = lpqlen + qlen / 65536).
  { cbn. rewrite Z.shiftr_div_pow2, Z.shiftl_mul_pow2 by lia.
    change (2 ^ 16) with 65536. rewrite Z.div_add by lia. lia. }
  split; [exact Hq|]. split; [exact Hl|]. split; [|reflexivity].
  intros Hr. rewrite Hq, Hl, Z.mod_small, Z.div_small by lia. lia.
Qed.

(** X7: [create_task(coro)] is [call_soon(coro)]: both push [coro] with no
    arguments on the normal queue under the current tick, and fail alike
    when the queue is full. *)
Theorem create_task_is_call_soon (coro : pyval) (w : World) :
  create_task coro w = call_soon coro [] w /\
  create_task coro w = q_push (clock w mod 2 ^ ticks_bits) coro (VTuple []) w.
Proof.
  assert (H : ticks_add (clock w mod 2 ^ ticks_bits) 0 = clock w mod 2 ^ ticks_bits).
  { unfold ticks_add. rewrite Z.add_0_r.
    destruct (Z.eq_dec (2 ^ ticks_bits) 0) as [E|E].
    - rewrite E, !Z.mod_0_r. reflexivity.
    - apply Z.mod_mod. exact E. }
  unfold create_task. rewrite call_later_ms__run, H. split; reflexivity.
Qed.

(** *** Capacities *)

Lemma caps_kept_refl w : caps_kept w w.
Proof. repeat split; auto. Qed.

Lemma caps_kept_trans w1 w2 w3 : caps_kept w1 w2 -> caps_kept w2 w3 -> caps_kept w1 w3.
Proof.
  intros (H1 & H2 & H3 & H4) (G1 & G2 & G3 & G4).
  repeat split; try congruence; auto.
Qed.

Lemma caps_kept_same_queues w w' :
  q (loop w') = q (loop w) -> lpq (loop w') = lpq (loop w) -> caps_kept w w'.
Proof. intros Hq Hl. unfold caps_kept. rewrite Hq, Hl. auto. Qed.

Lemma keeps_ret {A} (a : A) : keeps caps_kept (@mret M _ A a).
Proof. intros w. apply caps_kept_refl. Qed.

Lemma keeps_raise {A} (e : exn) : keeps caps_kept (@raise _ A e).
Proof. intros w. apply caps_kept_refl. Qed.

Lemma keeps_lift {A} (r : exn + A) : keeps caps_kept (lift r).
Proof. destruct r; [apply keeps_raise | apply keeps_ret]. Qed.

Lemma keeps_bind {A B} (m : M A) (f : A -> M B) :
  keeps caps_kept m -> (forall a, keeps caps_kept (f a)) -> keeps caps_kept (m ≫= f).
Proof.
  intros Hm Hf w. rewrite bind_run. specialize (Hm w).
  destruct (m w) as [a w'|e w']; [|exact Hm].
  specialize (Hf a w'). destruct (f a w'); eapply caps_kept_trans; eassumption.
Qed.

Lemma keeps_try {A} (body handler : M A) :
  keeps caps_kept body -> keeps caps_kept handler ->
  keeps caps_kept (try_StopIteration body handler).
Proof.
  intros Hb Hh w. unfold try_StopIteration. specialize (Hb w).
  destruct (body w) as [a w'|e w']; [exact Hb|].
  destruct e; try exact Hb.
  specialize (Hh w'). destruct (handler w'); eapply caps_kept_trans; eassumption.
Qed.

Lemma length_heap_insert e l : length (heap_insert e l) = S (length l).
Proof.
  induction l as [|x l IH]; [reflexivity|]. cbn.
  destruct (0 <? ticks_diff (e_time x) (e_time e)); cbn; [reflexivity|].
  rewrite IH. reflexivity.
Qed.

Lemma utimeq_push_ok h t cb args :
  utimeq_len h < alloc h ->
  utimeq_push h t cb args = inr (Utimeq (alloc h) (heap_insert (Entry t cb args) (items h))).
Proof.
  intros Hlt. unfold utimeq_push.
  destruct (Z.leb_spec (alloc h) (utimeq_len h)); [lia | reflexivity].
Qed.

Lemma utimeq_push_bounded h t cb args h' :
  utimeq_push h t cb args = inr h' ->
  alloc h' = alloc h /\ utimeq_len h' = utimeq_len h + 1 /\ bounded h'.
Proof.
  unfold utimeq_push. destruct (Z.leb_spec (alloc h) (utimeq_len h)); [discriminate|].
  intros [= <-]. unfold bounded, utimeq_len in *. cbn. rewrite length_heap_insert.
  split; [reflexivity|]. split; lia.
Qed.

Lemma keeps_q_push t cb args : keeps caps_kept (q_push t cb args).
Proof.
  intros w. rewrite q_push_run.
  destruct (utimeq_push (q (loop w)) t cb args) as [e|h] eqn:Hp; [apply caps_kept_refl|].
  apply utimeq_push_bounded in Hp as (Ha & _ & Hb).
  unfold caps_kept. cbn. auto.
Qed.

Lemma keeps_lpq_push t cb args : keeps caps_kept (lpq_push t cb args).
Proof.
  intros w. rewrite lpq_push_run.
  destruct (utimeq_push (lpq (loop w)) t cb args) as [e|h] eqn:Hp; [apply caps_kept_refl|].
  apply utimeq_push_bounded in Hp as (Ha & _ & Hb).
  unfold caps_kept. cbn. auto.
Qed.

Lemma q_pop_empty w : items (q (loop w)) = [] -> q_pop w = Raised IndexError w.
Proof.
  intros Hi. unfold q_pop. rewrite bind_run.
  change (get_loop w) with (Done (loop w) w). cbv beta iota.
  unfold utimeq_pop. rewrite Hi. reflexivity.
Qed.

Lemma lpq_pop_empty w : items (lpq (loop w)) = [] -> lpq_pop w = Raised IndexError w.
Proof.
  intros Hi. unfold lpq_pop. rewrite bind_run.
  change (get_loop w) with (Done (loop w) w). cbv beta iota.
  unfold utimeq_pop. rewrite Hi. reflexivity.
Qed.

Lemma bounded_tail a x l : bounded (Utimeq a (x :: l)) -> bounded (Utimeq a l).
Proof.
  unfold bounded, utimeq_len. cbn [items alloc length].
  intros [H|H]; [discriminate|]. right. lia.
Qed.

Lemma keeps_q_pop : keeps caps_kept q_pop.
Proof.
  intros w. destruct (items (q (loop w))) as [|e l] eqn:Hi.
  - rewrite (q_pop_empty w Hi). apply caps_kept_refl.
  - rewrite (q_pop_run w e l Hi). unfold caps_kept. cbn.
    repeat split; auto. intros Hb. apply (bounded_tail _ e).
    destruct (q (loop w)); cbn in *; subst; exact Hb.
Qed.

Lemma keeps_lpq_pop : keeps caps_kept lpq_pop.
Proof.
  intros w. destruct (items (lpq (loop w))) as [|e l] eqn:Hi.
  - rewrite (lpq_pop_empty w Hi). apply caps_kept_refl.
  - rewrite (lpq_pop_run w e l Hi). unfold caps_kept. cbn.
    repeat split; auto. intros Hb. apply (bounded_tail _ e).
    destruct (lpq (loop w)); cbn in *; subst; exact Hb.
Qed.

Lemma keeps_simple {A} (m : M A) :
  (forall w, match m w with
             | Done _ w' | Raised _ w' =>
                 q (loop w') = q (loop w) /\ lpq (loop w') = lpq (loop w)
             end) ->
  keeps caps_kept m.
Proof.
  intros H w. specialize (H w).
  destruct (m w); destruct H; apply caps_kept_same_queues; assumption.
Qed.

Lemma keeps_debug r : keeps caps_kept (debug r).
Proof. apply keeps_simple. intros w. split; reflexivity. Qed.

Lemma keeps_time : keeps caps_kept time.
Proof. apply keeps_simple. intros w. split; reflexivity. Qed.

Lemma keeps_get_loop : keeps caps_kept get_loop.
Proof. apply keeps_simple. intros w. split; reflexivity. Qed.

Lemma keeps_get_hpq : keeps caps_kept get_hpq.
Proof. apply keeps_simple. intros w. split; reflexivity. Qed.

Lemma keeps_set_hpq t : keeps caps_kept (set_hpq t).
Proof. apply keeps_simple. intros w. split; reflexivity. Qed.

Lemma keeps_set_max_overdue_ms t : keeps caps_kept (set_max_overdue_ms t).
Proof. apply keeps_simple. intros w. split; reflexivity. Qed.

Lemma keeps_sleep_ms d : keeps caps_kept (sleep_ms d).
Proof. apply keeps_simple. intros w. split; reflexivity. Qed.

Lemma keeps_react c : keeps caps_kept (react c).
Proof. apply keeps_simple. intros w. split; reflexivity. Qed.

Lemma keeps_assert_False m : keeps caps_kept (assert_False m).
Proof. apply keeps_simple. intros w. split; reflexivity. Qed.

Lemma keeps_call f vs : keeps caps_kept (call f vs).
Proof.
  apply keeps_simple. intros w. pose proof (call_same_queues f vs w) as H.
  destruct (call f vs w); destruct H as [(Hq & Hl & _) _]; auto.
Qed.

Lemma keeps_hpq_setitem i j x : keeps caps_kept (hpq_setitem i j x).
Proof.
  apply keeps_simple. intros w. pose proof (hpq_setitem_same_queues i j x w) as H.
  destruct (hpq_setitem i j x w); destruct H as (Hq & Hl & _); auto.
Qed.

Lemma keeps_hp_check : keeps caps_kept hp_check.
Proof.
  apply keeps_simple. intros w. pose proof (hp_check_same_queues w) as H.
  destruct (hp_check w); [destruct H as [H _]|]; destruct H as (Hq & Hl & _); auto.
Qed.

Lemma keeps_resume_task cb args : keeps caps_kept (resume_task cb args).
Proof.
  apply keeps_simple. intros w. pose proof (resume_task_same_but_gens cb args w) as H.
  destruct (resume_task cb args w); destruct H as (Hl & _); rewrite Hl; auto.
Qed.

Lemma keeps_run_and_stop coro : keeps caps_kept (_run_and_stop coro).
Proof. apply keeps_simple. intros w. split; reflexivity. Qed.

Create HintDb keeps_db.
#[local] Hint Resolve keeps_q_push keeps_lpq_push keeps_q_pop keeps_lpq_pop keeps_debug
  keeps_time keeps_get_loop keeps_get_hpq keeps_set_hpq keeps_set_max_overdue_ms
  keeps_sleep_ms keeps_react keeps_assert_False keeps_call keeps_hpq_setitem
  keeps_hp_check keeps_resume_task keeps_run_and_stop keeps_ret keeps_raise keeps_lift
  : keeps_db.

Ltac keeps_step :=
  match goal with
  | |- keeps _ (mbind _ _) => apply keeps_bind; [|intros ?]
  | |- keeps _ (try_StopIteration _ _) => apply keeps_try
  | |- keeps _ (if ?c then _ else _) => destruct c
  | |- keeps _ (match ?x with _ => _ end) => destruct x
  | |- keeps _ _ => solve [auto with keeps_db]
  end.

Ltac keeps_auto := repeat keeps_step.

Lemma keeps_call_at_ t cb args : keeps caps_kept (call_at_ t cb args).
Proof. unfold call_at_. keeps_auto. Qed.

Lemma keeps_call_at t cb args : keeps caps_kept (call_at t cb args).
Proof. unfold call_at. keeps_auto. Qed.

Lemma keeps_call_later_ms_ d cb args : keeps caps_kept (call_later_ms_ d cb args).
Proof. unfold call_later_ms_. keeps_auto; apply keeps_call_at_. Qed.

Lemma keeps_call_after_ms_ d cb args : keeps caps_kept (call_after_ms_ d cb args).
Proof. unfold call_after_ms_. keeps_auto. Qed.

Lemma keeps_call_soon cb args : keeps caps_kept (call_soon cb args).
Proof. unfold call_soon. keeps_auto; apply keeps_call_at. Qed.

Lemma keeps_schedule_hp_for entries func callback args :
  forall i, keeps caps_kept (_schedule_hp_for entries i func callback args).
Proof.
  induction entries as [|e rest IH]; intros i; cbn [_schedule_hp_for].
  - apply keeps_ret.
  - keeps_auto; apply IH.
Qed.

Lemma keeps_schedule_hp func callback args :
  keeps caps_kept (_schedule_hp func callback args).
Proof. unfold _schedule_hp. keeps_auto; apply keeps_schedule_hp_for. Qed.

Lemma keeps_allocate_hpq size : keeps caps_kept (allocate_hpq size).
Proof. unfold allocate_hpq. keeps_auto. Qed.

Lemma keeps_max_overdue_ms t : keeps caps_kept (max_overdue_ms t).
Proof. unfold max_overdue_ms. keeps_auto. Qed.

Lemma keeps_call_later d cb args : keeps caps_kept (call_later d cb args).
Proof. unfold call_later. keeps_auto; apply keeps_call_at. Qed.

Lemma keeps_call_after d cb args : keeps caps_kept (call_after d cb args).
Proof. unfold call_after. keeps_auto. Qed.

Lemma keeps_wait d : keeps caps_kept (wait d).
Proof. unfold wait. keeps_auto. Qed.

Lemma keeps_select_pass : keeps caps_kept select_pass.
Proof. unfold select_pass. keeps_auto; apply keeps_wait. Qed.

Lemma keeps_select n : keeps caps_kept (select n).
Proof.
  induction n as [|n IH]; cbn [select]; [apply keeps_ret|].
  apply keeps_bind; [apply keeps_select_pass|]. intros [cur|]; [apply keeps_ret | exact IH].
Qed.

Lemma keeps_interpret cb ret : keeps caps_kept (interpret cb ret).
Proof. unfold interpret. keeps_auto; apply keeps_call_soon. Qed.

Lemma keeps_reenqueue delay func priority cb args :
  keeps caps_kept (reenqueue delay func priority cb args).
Proof.
  unfold reenqueue. destruct func as [f|]; [apply keeps_schedule_hp|].
  destruct priority; [apply keeps_call_later_ms_ | apply keeps_call_after_ms_].
Qed.

Lemma keeps_dispatch cur : keeps caps_kept (dispatch cur).
Proof.
  unfold dispatch. keeps_auto;
    first [apply keeps_interpret | apply keeps_reenqueue].
Qed.

Lemma keeps_pick n : keeps caps_kept (pick n).
Proof.
  unfold pick, log_next. keeps_auto; first [apply keeps_select | apply keeps_wait].
Qed.

Lemma keeps_iteration n : keeps caps_kept (iteration n).
Proof.
  unfold iteration. keeps_auto; first [apply keeps_pick | apply keeps_dispatch].
Qed.

Lemma keeps_run_forever n : keeps caps_kept (run_forever n).
Proof.
  induction n as [|n IH]; cbn [run_forever]; [apply keeps_ret|].
  apply keeps_bind; [apply keeps_iteration|].
  intros [[|v]|]; [exact IH | apply keeps_ret | apply keeps_ret].
Qed.

(** X8: the capacities of the two timed queues are fixed at construction:
    no method of the loop and no run of [run_forever] or
    [run_until_complete], whether it returns, raises or is still running,
    changes a capacity or leaves more entries in a queue than its capacity
    when there were not more before. *)
Theorem capacities_are_fixed :
  (forall n, keeps caps_kept (run_forever n)) /\
  (forall n coro, keeps caps_kept (run_until_complete n coro)) /\
  (forall cb args, keeps caps_kept (call_soon cb args)) /\
  (forall t cb args, keeps caps_kept (call_at t cb args)) /\
  (forall d cb args, keeps caps_kept (call_later d cb args)) /\
  (forall d cb args, keeps caps_kept (call_after d cb args)) /\
  (forall d cb args, keeps caps_kept (call_later_ms_ d cb args)) /\
  (forall d cb args, keeps caps_kept (call_after_ms_ d cb args)) /\
  (forall coro, keeps caps_kept (create_task coro)) /\
  (forall f cb args, keeps caps_kept (_schedule_hp f cb args)) /\
  (forall size, keeps caps_kept (allocate_hpq size)) /\
  (forall t, keeps caps_kept (max_overdue_ms t)).
Proof.
  repeat apply conj; intros.
  - apply keeps_run_forever.
  - unfold run_until_complete. keeps_auto;
      first [apply keeps_call_soon | apply keeps_run_forever].
  - apply keeps_call_soon.
  - apply keeps_call_at.
  - apply keeps_call_later.
  - apply keeps_call_after.
  - apply keeps_call_later_ms_.
  - apply keeps_call_after_ms_.
  - apply keeps_call_later_ms_.
  - apply keeps_schedule_hp.
  - apply keeps_allocate_hpq.
  - apply keeps_max_overdue_ms.
Qed.

(** *** Re-enqueueing *)



(** X10: a task that yields a generator object has it scheduled with
    [call_soon] and is then re-enqueued itself, both under the current tick:
    two pushes on the normal queue.  With room for both the iteration ends
    normally with two more entries; with room for exactly one the nested
    task is queued, the second push raises [QueueFull] out of the loop body,
    and the yielding task is on no queue. *)
Theorem nested_task_needs_two_slots
    (cur : entry) (w0 w1 : World) (g : nat) :
  callable (e_cb cur) = false ->
  resume_task (e_cb cur) (e_args cur) w0 = Done (VGen g) w1 ->
  let now := clock w1 mod 2 ^ ticks_bits in
  let nested := Entry now (VGen g) (VTuple []) in
  let again := Entry (ticks_add now 0) (e_cb cur) (e_args cur) in
  (utimeq_len (q (loop w1)) + 1 < alloc (q (loop w1)) ->
   dispatch cur w0
   = Done Continue
       (with_q w1 (Utimeq (alloc (q (loop w1)))
                          (heap_insert again (heap_insert nested (items (q (loop w1)))))))) /\
  (utimeq_len (q (loop w1)) + 1 = alloc (q (loop w1)) ->
   dispatch cur w0
   = Raised QueueFull
       (with_q w1 (Utimeq (alloc (q (loop w1)))
                          (heap_insert nested (items (q (loop w1))))))) /\
  (alloc (q (loop w1)) <= utimeq_len (q (loop w1)) ->
   dispatch cur w0 = Raised QueueFull w1).
Proof.
  intros Hc Hr now nested again.
  assert (Hd : dispatch cur w0 =
               (q_push now (VGen g) (VTuple []) ;;
                q_push (ticks_add now 0) (e_cb cur) (e_args cur) ;; mret Continue) w1).
  { rewrite dispatch_task, Hr by exact Hc.
    change (interpret (e_cb cur) (VGen g) w1)
      with ((q_push now (VGen g) (VTuple []) ;; mret (Reenqueue (VInt 0) None true)) w1).
    rewrite !bind_run, q_push_run.
    destruct (utimeq_push (q (loop w1)) now (VGen g) (VTuple [])) as [e|h] eqn:Hp;
      [|reflexivity].
    unfold utimeq_push in Hp. destruct (_ <=? _); [|discriminate].
    injection Hp as <-. reflexivity. }
  rewrite Hd. split; [|split]; intros Hlen.
  - rewrite bind_run, q_push_run, utimeq_push_ok by lia. cbv beta iota.
    rewrite bind_run, q_push_run, utimeq_push_ok
      by (unfold utimeq_len in *; cbn; rewrite length_heap_insert; lia).
    reflexivity.
  - rewrite bind_run, q_push_run, utimeq_push_ok by lia. cbv beta iota.
    rewrite bind_run, q_push_run.
    unfold utimeq_push at 1.
    destruct (Z.leb_spec (alloc (q (loop (with_q w1 (Utimeq (alloc (q (loop w1)))
                 (heap_insert (Entry now (VGen g) (VTuple [])) (items (q (loop w1))))))))) 
              (utimeq_len (q (loop (with_q w1 (Utimeq (alloc (q (loop w1)))
                 (heap_insert (Entry now (VGen g) (VTuple [])) (items (q (loop w1))))))))))
      as [_|Hbad]; [reflexivity|].
    unfold utimeq_len in *. cbn in Hbad. rewrite length_heap_insert in Hbad. lia.
  - rewrite bind_run, q_push_run. unfold utimeq_push.
    destruct (Z.leb_spec (alloc (q (loop w1))) (utimeq_len (q (loop w1)))); [reflexivity|lia].
Qed.

(** X11: the I/O directives.  [IORead(h)] and [IOWrite(h)] make one call,
    [add_reader(h, task)] or [add_writer(h, task)], and the iteration ends
    there: the task is put on no queue.  [IOReadDone(h)] and
    [IOWriteDone(h)] make one call, [remove_reader(h)] or
    [remove_writer(h)], and the task then goes back on the normal queue
    under the current tick. *)
Theorem io_directives (cur : entry) (w0 w1 : World) (c : cls) (h : pyval) :
  callable (e_cb cur) = false ->
  resume_task (e_cb cur) (e_args cur) w0 = Done (VObj c h) w1 ->
  (c = IORead ->
   dispatch cur w0
   = Done Continue (with_reactor w1 (reactor w1 ++ [add_reader h (e_cb cur)]))) /\
  (c = IOWrite ->
   dispatch cur w0
   = Done Continue (with_reactor w1 (reactor w1 ++ [add_writer h (e_cb cur)]))) /\
  (c = IOReadDone ->
   dispatch cur w0
   = (q_push (ticks_add (clock w1 mod 2 ^ ticks_bits) 0) (e_cb cur) (e_args cur) ;;
      mret Continue) (with_reactor w1 (reactor w1 ++ [remove_reader h]))) /\
  (c = IOWriteDone ->
   dispatch cur w0
   = (q_push (ticks_add (clock w1 mod 2 ^ ticks_bits) 0) (e_cb cur) (e_args cur) ;;
      mret Continue) (with_reactor w1 (reactor w1 ++ [remove_writer h]))).
Proof.
  intros Hc Hr. repeat apply conj; intros ->;
    rewrite dispatch_task, Hr by exact Hc; reflexivity.
Qed.

(** X12: [AfterMs(k)] sends the task to the low-priority queue, keyed
    [ticks_add(now, k)], and leaves the normal queue as it is; when the
    low-priority queue has no room, as on a loop built by [EventLoop()], the
    push raises [QueueFull], which ends [run_forever], and the task is on no
    queue. *)
Theorem AfterMs_goes_to_lpq
    (n : nat) (w w0 w1 : World) (cur : entry) (k : Z) :
  pick n w = Done (Picked cur) w0 ->
  callable (e_cb cur) = false ->
  resume_task (e_cb cur) (e_args cur) w0 = Done (VObj AfterMs (VInt k)) w1 ->
  (utimeq_len (lpq (loop w1)) < alloc (lpq (loop w1)) ->
   dispatch cur w0
   = Done Continue
       (with_lpq w1 (Utimeq (alloc (lpq (loop w1)))
          (heap_insert (Entry (ticks_add (clock w1 mod 2 ^ ticks_bits) k)
                              (e_cb cur) (e_args cur))
                       (items (lpq (loop w1))))))) /\
  (alloc (lpq (loop w1)) <= utimeq_len (lpq (loop w1)) ->
   dispatch cur w0 = Raised QueueFull w1 /\
   loop w1 = loop w0 /\
   forall m, (n < m)%nat -> run_forever m w = Raised QueueFull w1).
Proof.
  intros Hp Hc Hr.
  assert (Hd : dispatch cur w0 =
               (lpq_push (ticks_add (clock w1 mod 2 ^ ticks_bits) k) (e_cb cur) (e_args cur) ;;
                mret Continue) w1).
  { rewrite dispatch_task, Hr by exact Hc. reflexivity. }
  split; intros Hlen.
  - rewrite Hd, bind_run, lpq_push_run, utimeq_push_ok by exact Hlen. reflexivity.
  - assert (Hq : dispatch cur w0 = Raised QueueFull w1).
    { rewrite Hd, bind_run, lpq_push_run. unfold utimeq_push.
      destruct (Z.leb_spec (alloc (lpq (loop w1))) (utimeq_len (lpq (loop w1))));
        [reflexivity | lia]. }
    split; [exact Hq|]. split.
    + pose proof (resume_task_same_but_gens (e_cb cur) (e_args cur) w0) as Hs.
      rewrite Hr in Hs. apply Hs.
    + intros m Hm. pose proof (run_forever_fuel (S n) m w Hm) as Hfuel.
      rewrite (run_forever_step _ _ _ _ Hp), Hq in Hfuel. exact Hfuel.
Qed.

(** X13: with [_max_overdue_ms] at 0, its value after construction and
    after [max_overdue_ms(0)], the overdue test is off: when no predicate
    fires and the head of the normal queue is due, the pass takes that head,
    however long the head of the low-priority queue has been overdue. *)
Theorem zero_threshold_disables_override
    (w w1 : World) (en : entry) (rest : list entry) :
  items (q (loop w)) = en :: rest ->
  _max_overdue_ms (loop w) <= 0 ->
  hp_check w = Done None w1 ->
  ticks_diff (e_time en) (clock w mod 2 ^ ticks_bits) <= 0 ->
  select_pass w = Done (Some en) (with_q w1 (Utimeq (alloc (q (loop w))) rest)) /\
  lpq (loop (with_q w1 (Utimeq (alloc (q (loop w))) rest))) = lpq (loop w) /\
  _max_overdue_ms (__init__ 42) = 0 /\
  (forall w', max_overdue_ms (Some 0) w'
              = Done 0 (state_after (set_max_overdue_ms 0) w') /\
              _max_overdue_ms (loop (state_after (set_max_overdue_ms 0) w')) = 0).
Proof.
  intros Hq Hmax Hhp Hdue.
  pose proof (hp_check_same_queues w) as Hs. rewrite Hhp in Hs.
  destruct Hs as [_ Hloop]. specialize (Hloop eq_refl).
  split; [|split; [|split; [reflexivity|intros w'; split; reflexivity]]].
  - rewrite (select_pass_no_hp _ _ _ _ Hhp Hq).
    assert (lpq_overdue (loop w) (clock w mod 2 ^ ticks_bits) = false) as ->.
    { unfold lpq_overdue. destruct (items (lpq (loop w))); [reflexivity|].
      destruct (Z.ltb_spec 0 (_max_overdue_ms (loop w))); [lia | reflexivity]. }
    assert (nq_due (loop w) (clock w mod 2 ^ ticks_bits) = true) as ->.
    { unfold nq_due. rewrite Hq. apply Z.leb_le. exact Hdue. }
    rewrite bind_run, (q_pop_run w1 en rest) by (rewrite Hloop; exact Hq).
    rewrite Hloop. reflexivity.
  - cbn. rewrite Hloop. reflexivity.
Qed.

(** *** Waiting for the head of the normal queue *)

Lemma ticks_diff_after_wait t c :
  1 <= ticks_bits ->
  ticks_diff t ((c + ticks_diff t (c mod 2 ^ ticks_bits)) mod 2 ^ ticks_bits) = 0.
Proof.
  intros HW. unfold ticks_diff.
  set (H := 2 ^ (ticks_bits - 1)).
  assert (HM : 2 ^ ticks_bits = 2 * H).
  { unfold H. rewrite <- Z.pow_succ_r by lia. f_equal. lia. }
  assert (HH : 0 < H) by (apply Z.pow_pos_nonneg; lia).
  rewrite HM.
  replace (t - c mod (2 * H) + H) with ((t + H) - c mod (2 * H)) by ring.
  rewrite Zminus_mod_idemp_r.
  set (A := t + H - c).
  replace (t - (c + (A mod (2 * H) - H)) mod (2 * H) + H)
    with ((t + H) - (c + (A mod (2 * H) - H)) mod (2 * H)) by ring.
  rewrite Zminus_mod_idemp_r.
  replace (t + H - (c + (A mod (2 * H) - H))) with (H + (A - A mod (2 * H))) by (unfold A; ring).
  rewrite (Z.mod_eq A (2 * H)) by lia.
  replace (H + (A - (A - 2 * H * (A / (2 * H))))) with (H + (A / (2 * H)) * (2 * H)) by ring.
  rewrite Z.mod_add by lia. rewrite Z.mod_small by lia. lia.
Qed.

Lemma hp_check_absent w : hpq (loop w) = None -> hp_check w = Done None w.
Proof.
  intros Hn. unfold hp_check. rewrite bind_run.
  change (get_loop w) with (Done (loop w) w). cbv beta iota. rewrite Hn. reflexivity.
Qed.

(** X14: the loop does not run a normal entry early.  With no table and an
    empty low-priority queue, when the head of the normal queue is due in
    [d > 0] ms the pass pops nothing and sleeps exactly [d] ms; at the next
    pass the head is due and it is the entry picked, [d] ms after the
    iteration began. *)
Theorem loop_sleeps_until_due (w : World) (en : entry) (rest : list entry) :
  1 <= ticks_bits ->
  items (q (loop w)) = en :: rest ->
  items (lpq (loop w)) = [] ->
  hpq (loop w) = None ->
  0 < ticks_diff (e_time en) (clock w mod 2 ^ ticks_bits) ->
  select_pass w
    = Done None (with_clock_q w (clock w + ticks_diff (e_time en) (clock w mod 2 ^ ticks_bits))
                              (q (loop w))) /\
  pick 2 w
    = Done (Picked en)
        (with_clock_q w (clock w + ticks_diff (e_time en) (clock w mod 2 ^ ticks_bits))
                      (Utimeq (alloc (q (loop w))) rest)).
Proof.
  intros HW Hq Hl Hn Hd.
  set (d := ticks_diff (e_time en) (clock w mod 2 ^ ticks_bits)) in *.
  set (w' := with_clock_q w (clock w + d) (q (loop w))).
  assert (Hpass : select_pass w = Done None w').
  { rewrite (select_pass_no_hp w w en rest (hp_check_absent w Hn) Hq).
    unfold lpq_overdue, nq_due, lpq_due, wait_delay. rewrite Hl, Hq. fold d.
    destruct (Z.leb_spec d 0); [lia|].
    rewrite bind_run. unfold wait. rewrite bind_run, debug_skip. unfold sleep_ms.
    rewrite Z.max_r by lia. unfold w', with_clock_q. destruct w as [[? ? ? ?] ? ? ? ? ?].
    reflexivity. }
  split; [exact Hpass|].
  assert (Hpass' : select_pass w'
                   = Done (Some en) (with_clock_q w (clock w + d)
                                                  (Utimeq (alloc (q (loop w))) rest))).
  { rewrite (select_pass_no_hp w' w' en rest (hp_check_absent w' Hn) Hq).
    unfold lpq_overdue, nq_due. cbn [w' with_clock_q loop lpq q clock].
    rewrite Hl, Hq. unfold d. rewrite ticks_diff_after_wait by exact HW.
    cbn [Z.leb Z.compare]. rewrite bind_run, (q_pop_run w' en rest Hq). reflexivity. }
  unfold pick. rewrite bind_run.
  change (get_loop w) with (Done (loop w) w). cbv beta iota.
  unfold utimeq_nonempty. rewrite Hq, bind_run. cbn [select].
  rewrite bind_run, Hpass. cbv beta iota.
  rewrite bind_run, Hpass'. reflexivity.
Qed.

(** *** The awaitable objects and [sleep] *)

(** X15: the protocol of [sleep_ms(x)] and its siblings.  Calling the
    object stores [x]; iterating it then yields the object once, carrying
    [x] as [arg], and stops at the next step, whatever the object held
    before: a value stored by an earlier call and not yet consumed is lost.
    With [x = None] the iteration stops at once and yields nothing.  The
    call alone does not touch [arg]: an object yielded without being
    iterated shows the loop the argument of the previous use.  What
    [sleep_ms(k)] yields makes the loop re-enqueue the task after [k] ms at
    normal priority. *)
Theorem awaitable_protocol (o : Awaitable.t) (x : pyval) :
  x <> VNone ->
  Awaitable.__next__ (Awaitable.__iter__ (Awaitable.__call__ o x))
    = (inr (VObj (Awaitable.klass o) x), Awaitable.mk (Awaitable.klass o) VNone x) /\
  Awaitable.__next__ (Awaitable.mk (Awaitable.klass o) VNone x)
    = (inl StopIteration, Awaitable.mk (Awaitable.klass o) VNone x) /\
  Awaitable.__next__ (Awaitable.__iter__ (Awaitable.__call__ o VNone))
    = (inl StopIteration, Awaitable.__call__ o VNone) /\
  Awaitable.as_value (Awaitable.__call__ o x) = Awaitable.as_value o /\
  (forall cb w k,
      Awaitable.klass o = SleepMs -> x = VInt k ->
      interpret cb (VObj (Awaitable.klass o) x) w = Done (Reenqueue (VInt k) None true) w).
Proof.
  intros Hx. repeat apply conj; try reflexivity.
  - unfold Awaitable.__next__, Awaitable.__iter__, Awaitable.__call__. cbn.
    destruct x; try reflexivity. congruence.
  - intros cb w k -> ->. reflexivity.
Qed.

Lemma int_mul_1000_exn secs e : int_mul_1000 secs = inl e -> e <> StopIteration.
Proof.
  destruct secs as [| |x| | | | |]; cbn; try (intros [= <-]; discriminate).
  destruct (SFmul prec emax x f1000); cbn; intros [= <-]; discriminate.
Qed.

Lemma next_Throw g e evs w :
  gens w !! g = Some (Script (Throw e :: evs)) ->
  next (VGen g) w = Raised e (with_gen w g (Script [])).
Proof.
  intros Hg. cbn [next].
  destruct (length (gens w)) eqn:Hlen.
  - apply lookup_lt_Some in Hg. lia.
  - cbn [resume]. rewrite Hg. reflexivity.
Qed.

(** X16: a task that runs [sleep(secs)] behaves, at its first resumption,
    as one that yields [Sleep(secs)]: the loop body ends in the same state,
    with the task re-enqueued on the normal queue under
    [ticks_add(now, int(secs * 1000))] when the conversion is defined, and
    with the exception of the conversion raised out of the loop when it is
    not. *)
Theorem sleep_is_Sleep (secs : pyval) (t : Z) (g : nat) (w : World) :
  (g < length (gens w))%nat ->
  dispatch (Entry t (VGen g) (VTuple [])) (with_gen w g (sleep secs))
    = dispatch (Entry t (VGen g) (VTuple []))
        (with_gen w g (Script [Yield (VObj Sleep secs)])) /\
  dispatch (Entry t (VGen g) (VTuple [])) (with_gen w g (sleep secs))
    = match int_mul_1000 secs with
      | inr d =>
          (q_push (ticks_add (clock w mod 2 ^ ticks_bits) d) (VGen g) (VTuple []) ;;
           mret Continue) (with_gen w g (Script []))
      | inl e => Raised e (with_gen w g (Script []))
      end.
Proof.
  intros Hg.
  assert (HS : dispatch (Entry t (VGen g) (VTuple []))
                 (with_gen w g (Script [Yield (VObj Sleep secs)]))
               = match int_mul_1000 secs with
                 | inr d =>
                     (q_push (ticks_add (clock w mod 2 ^ ticks_bits) d) (VGen g) (VTuple []) ;;
                      mret Continue) (with_gen w g (Script []))
                 | inl e => Raised e (with_gen w g (Script []))
                 end).
  { rewrite dispatch_task by reflexivity. cbn [e_cb e_args].
    rewrite resume_task_Yield by (auto; left; reflexivity).
    change (interpret (VGen g) (VObj Sleep secs))
      with (d ← lift (int_mul_1000 secs); mret (Reenqueue (VInt d) None true)).
    rewrite bind_run, lift_run.
    destruct (int_mul_1000 secs) as [e|d] eqn:Hc; [|reflexivity].
    pose proof (int_mul_1000_exn _ _ Hc). destruct e; congruence. }
  rewrite HS. apply and_wlog_r; [|intros H; exact H].
  unfold sleep. destruct (int_mul_1000 secs) as [e|d] eqn:Hc.
  - rewrite dispatch_task by reflexivity. cbn [e_cb e_args resume_task].
    erewrite next_Throw by (cbn; apply list_lookup_insert_eq, Hg).
    unfold with_gen; cbn. rewrite list_insert_insert_eq.
    pose proof (int_mul_1000_exn _ _ Hc). destruct e; congruence.
  - rewrite dispatch_task by reflexivity. cbn [e_cb e_args].
    rewrite resume_task_Yield by (auto; left; reflexivity). reflexivity.
Qed.

(** *** The capacity of the normal queue *)

Lemma utimeq_push_full h t cb args :
  alloc h <= utimeq_len h -> utimeq_push h t cb args = inl QueueFull.
Proof.
  intros Hf. unfold utimeq_push.
  destruct (Z.leb_spec (alloc h) (utimeq_len h)); [reflexivity | lia].
Qed.

Lemma call_soon_run cb args w :
  call_soon cb args w = q_push (clock w mod 2 ^ ticks_bits) cb (VTuple args) w.
Proof. reflexivity. Qed.

(** X17: the normal queue takes entries up to its capacity and no further:
    [k] calls of [call_soon] in a row all succeed when [k] more entries fit,
    leaving [k] more entries in the queue, and [call_soon] on a queue that
    holds its capacity raises [QueueFull] and changes nothing. *)
Theorem nq_accepts_up_to_capacity (cb : pyval) (k : nat) :
  forall w,
    utimeq_len (q (loop w)) + Z.of_nat k <= alloc (q (loop w)) ->
    (exists w',
        call_soon_times k cb w = Done tt w' /\
        utimeq_len (q (loop w')) = utimeq_len (q (loop w)) + Z.of_nat k /\
        alloc (q (loop w')) = alloc (q (loop w))) /\
    (Z.of_nat k = alloc (q (loop w)) - utimeq_len (q (loop w)) ->
     exists w',
        call_soon_times k cb w = Done tt w' /\
        forall cb' args, call_soon cb' args w' = Raised QueueFull w').
Proof.
  induction k as [|k IH]; intros w Hfit.
  - split.
    + exists w. split; [reflexivity|]. split; [lia | reflexivity].
    + intros Hfull. exists w. split; [reflexivity|].
      intros cb' args. rewrite call_soon_run, q_push_run, utimeq_push_full; [reflexivity|].
      lia.
  - assert (Hlt : utimeq_len (q (loop w)) < alloc (q (loop w))) by lia.
    assert (Hstep : call_soon_times (S k) cb w
                    = call_soon_times k cb
                        (with_q w (Utimeq (alloc (q (loop w)))
                           (heap_insert (Entry (clock w mod 2 ^ ticks_bits) cb (VTuple []))
                                        (items (q (loop w))))))).
    { cbn [call_soon_times]. rewrite bind_run, call_soon_run, q_push_run.
      rewrite (utimeq_push_ok _ _ _ _ Hlt). reflexivity. }
    rewrite Hstep.
    set (w1 := with_q w _).
    assert (Hlen1 : utimeq_len (q (loop w1)) = utimeq_len (q (loop w)) + 1).
    { unfold w1, utimeq_len. cbn. rewrite length_heap_insert. lia. }
    assert (Hal1 : alloc (q (loop w1)) = alloc (q (loop w))) by reflexivity.
    destruct (IH w1 ltac:(lia)) as [(w' & Hrun & Hlen & Hal) Hfull].
    split.
    + exists w'. split; [exact Hrun|]. split; lia.
    + intros Heq. apply Hfull. lia.
Qed.

(** *** The wrapper of [run_until_complete] and plain callbacks *)

Lemma next_RunAndStop g coro w :
  gens w !! g = Some (RunAndStop coro) ->
  next (VGen g) w =
  match resume (Nat.pred (length (gens w))) coro w with
  | Done v w' => Done v w'
  | Raised StopIteration w' => Done (VObj StopLoop (VInt 0)) (with_gen w' g (Script []))
  | Raised e w' => Raised e (with_gen w' g (Script []))
  end.
Proof.
  intros Hg. cbn [next].
  destruct (length (gens w)) eqn:Hlen.
  - apply lookup_lt_Some in Hg. lia.
  - cbn [resume Nat.pred]. rewrite Hg.
    destruct (resume n coro w) as [v w'|e w']; [reflexivity|].
    destruct e; reflexivity.
Qed.

Lemma resume_Script d g w evs :
  gens w !! g = Some (Script evs) ->
  resume d g w =
  match evs with
  | [] => Raised StopIteration w
  | Yield v :: evs' => Done v (with_gen w g (Script evs'))
  | Throw e :: _ => Raised e (with_gen w g (Script []))
  end.
Proof.
  intros Hg. destruct d; cbn [resume]; rewrite Hg;
    destruct evs as [|[v|e] evs']; reflexivity.
Qed.

(** X18: the generator [_run_and_stop()] that [run_until_complete] puts on
    the queue passes on what the coroutine yields, leaving itself as it is;
    once the coroutine has finished, its next resumption yields
    [StopLoop(0)], on which the loop body returns 0 from [run_forever]; an
    exception of the coroutine goes through the wrapper and finishes it. *)
Theorem run_and_stop_wrapper (g coro : nat) (w : World) :
  gens w !! g = Some (RunAndStop coro) ->
  (forall v evs,
      gens w !! coro = Some (Script (Yield v :: evs)) ->
      next (VGen g) w = Done v (with_gen w coro (Script evs))) /\
  (gens w !! coro = Some (Script []) ->
   next (VGen g) w = Done (VObj StopLoop (VInt 0)) (with_gen w g (Script [])) /\
   next (VGen g) (with_gen w g (Script []))
     = Raised StopIteration (with_gen w g (Script [])) /\
   forall t, dispatch (Entry t (VGen g) (VTuple [])) w
             = Done (Return (VInt 0)) (with_gen w g (Script []))) /\
  (forall e evs,
      gens w !! coro = Some (Script (Throw e :: evs)) ->
      e <> StopIteration ->
      next (VGen g) w
      = Raised e (with_gen (with_gen w coro (Script [])) g (Script []))).
Proof.
  intros Hg. pose proof (lookup_lt_Some _ _ _ Hg) as Hlt. split; [|split].
  - intros v evs Hc. rewrite (next_RunAndStop _ _ _ Hg), (resume_Script _ _ _ _ Hc).
    reflexivity.
  - intros Hc.
    assert (Hn : next (VGen g) w = Done (VObj StopLoop (VInt 0)) (with_gen w g (Script []))).
    { rewrite (next_RunAndStop _ _ _ Hg), (resume_Script _ _ _ _ Hc). reflexivity. }
    split; [exact Hn|]. split.
    + cbn [next with_gen gens]. rewrite length_insert.
      erewrite resume_Script by (cbn; apply list_lookup_insert_eq, Hlt). reflexivity.
    + intros t. rewrite dispatch_task by reflexivity. cbn [e_cb e_args resume_task].
      rewrite Hn. reflexivity.
  - intros e evs Hc He.
    rewrite (next_RunAndStop _ _ _ Hg), (resume_Script _ _ _ _ Hc).
    destruct e; congruence.
Qed.

(** X19: an entry whose payload is a plain function is called once with
    its arguments and is not put back on any queue; what the function
    raises leaves the loop body as it is raised.  An awaitable object such
    as [sleep_ms] is callable too, so scheduled as a task with no arguments
    it is called, not iterated, and the call raises [TypeError]. *)
Theorem callback_runs_once (t : Z) (f : nat) (vs : list pyval) (w : World) :
  dispatch (Entry t (VFun f) (VTuple vs)) w
  = match call_function f vs (env w) with
    | (inr _, e') => Done Continue (with_hpq_env w (hpq (loop w)) e')
    | (inl x, e') => Raised x (with_hpq_env w (hpq (loop w)) e')
    end /\
  (forall c a, issubclass c SleepMs = true ->
               dispatch (Entry t (VObj c a) (VTuple [])) w = Raised TypeError w).
Proof.
  split.
  - unfold dispatch. cbn [callable e_cb e_args]. rewrite bind_run.
    change (lift (unpack (VTuple vs)) w) with (Done vs w). cbv beta iota.
    rewrite bind_run. cbn [call].
    destruct (call_function f vs (env w)) as [[x|v] e']; cbv beta iota;
      unfold with_hpq_env; destruct w as [[? ? ? ?] ? ? ? ? ?]; reflexivity.
  - intros c a Hc. unfold dispatch. cbn [callable e_cb e_args]. rewrite Hc, bind_run.
    change (lift (unpack (VTuple [])) w) with (Done (@nil pyval) w). cbv beta iota.
    rewrite bind_run. cbn [call]. rewrite Hc. reflexivity.
Qed.

End Coverage.

(** X1, witness: [allocate_hpq(3)] on a fresh loop. *)
Lemma allocate_hpq_grows_table_witness :
  exists t', @allocate_hpq flag_platform 3 (@boot flag_platform 42 0 [] false)
             = Done tt (with_hpq_env (@boot flag_platform 42 0 [] false) (Some t') false) /\
             length t' = 3%nat.
Proof.
  destruct (@allocate_hpq_grows_table flag_platform 3 (@boot flag_platform 42 0 [] false))
    as (t' & Hrun & Hlen & _).
  exists t'. split; [exact Hrun | exact Hlen].
Defined.

(** X2, witness: the first of two empty slots is filled. *)
Lemma schedule_hp_fills_first_empty_slot_witness :
  @_schedule_hp flag_platform (VFun 0) (VGen 0) (VTuple []) (table_world true)
  = Done tt (with_hpq_env (table_world true)
               (Some [VList [VFun 0; VGen 0; VTuple []]; empty_slot]) true).
Proof.
  apply (proj1 (@schedule_hp_fills_first_empty_slot flag_platform [] [empty_slot]
                  (VInt 0) (VInt 0) (VInt 0) (VFun 0) (VGen 0) (VTuple [])
                  (table_world true) eq_refl eq_refl)).
  reflexivity.
Defined.

(** X3, witness: the slot filled above fires and is empty again. *)
Lemma hp_slot_is_recycled_witness :
  (@_schedule_hp flag_platform (VFun 0) (VGen 0) (VTuple []) ;; hp_check) (table_world true)
  = Done (Some (Entry 0 (VGen 0) (VTuple [])))
      (with_hpq_env (table_world true)
         (Some [VList [VInt 0; VGen 0; VTuple []]; empty_slot]) true).
Proof.
  apply (proj1 (@hp_slot_is_recycled flag_platform [] [empty_slot]
                  (VInt 0) (VInt 0) (VInt 0) (VGen 0) (VTuple []) 0%nat
                  (table_world true) _ (VInt 1) true
                  eq_refl eq_refl eq_refl eq_refl eq_refl eq_refl)).
Defined.

(** X4, witness: the table of two empty slots. *)
Lemma table_stays_well_formed_witness :
  exists t',
    @_schedule_hp flag_platform (VFun 0) (VGen 0) (VTuple []) (table_world true)
    = Done tt (with_hpq_env (table_world true) (Some t') true) /\
    forallb is_slot t' = true.
Proof.
  destruct (@table_stays_well_formed flag_platform [empty_slot; empty_slot]
              (table_world true) eq_refl eq_refl) as (H & _).
  destruct (H (VFun 0) (VGen 0) (VTuple [])) as (t' & Hrun & Hwf & _).
  exists t'. split; assumption.
Defined.

(** X5, witness: the predicate of the waiting task holds, both timed queues
    are empty, and the loop does nothing. *)
Lemma empty_queues_starve_hpq_witness :
  @run_forever flag_platform 5 waiting_world = Done Running waiting_world.
Proof.
  apply (proj2 (@empty_queues_starve_hpq flag_platform waiting_world eq_refl) eq_refl).
Defined.

(** X6, witness: the defaults of [get_event_loop]. *)
Lemma get_event_loop_round_trip_witness :
  alloc (q (get_event_loop 42 42 None)) = 42 /\
  alloc (lpq (get_event_loop 42 42 None)) = 42.
Proof.
  destruct (get_event_loop_round_trip 42 42) as (_ & _ & H & _).
  apply H. lia.
Defined.

(** X8, witness: a run from a loop with one task leaves the normal queue
    within its capacity. *)
Lemma capacities_are_fixed_witness :
  bounded (q (loop (@state_after flag_platform _ (run_forever 10) float_yield_world))).
Proof.
  pose proof (proj1 (@capacities_are_fixed flag_platform) 10%nat float_yield_world) as H.
  unfold state_after.
  destruct (@run_forever flag_platform 10 float_yield_world);
    destruct H as (_ & _ & Hb & _); apply Hb; right; vm_compute; discriminate.
Defined.


(** X10, witness: a task that yields a generator, on a queue with room. *)
Lemma nested_task_needs_two_slots_witness :
  exists w2,
    @dispatch flag_platform (Entry 0 (VGen 0) (VTuple []))
      (@boot flag_platform 42 0 [Script [Yield (VGen 1)]; Script []] false)
    = Done Continue w2 /\ utimeq_len (q (loop w2)) = 2.
Proof.
  edestruct (@nested_task_needs_two_slots flag_platform (Entry 0 (VGen 0) (VTuple []))
               (@boot flag_platform 42 0 [Script [Yield (VGen 1)]; Script []] false))
    as (H & _).
  - reflexivity.
  - vm_compute. reflexivity.
  - eexists. split; [apply H; vm_compute; reflexivity | vm_compute; reflexivity].
Defined.

(** X11, witness: a task that yields [IORead(3)]. *)
Lemma io_directives_witness :
  exists w2,
    @dispatch flag_platform (Entry 0 (VGen 0) (VTuple []))
      (@boot flag_platform 42 0 [Script [Yield (VObj IORead (VInt 3))]] false)
    = Done Continue w2 /\
    reactor w2 = [add_reader (VInt 3) (VGen 0)] /\ items (q (loop w2)) = [].
Proof.
  edestruct (@io_directives flag_platform (Entry 0 (VGen 0) (VTuple []))
               (@boot flag_platform 42 0 [Script [Yield (VObj IORead (VInt 3))]] false))
    as (H & _).
  - reflexivity.
  - vm_compute. reflexivity.
  - eexists. split; [apply H; reflexivity | split; reflexivity].
Defined.

(** X12, witness: a task that yields [AfterMs(5)] on a loop built by
    [EventLoop()]. *)
Lemma AfterMs_goes_to_lpq_witness :
  exists w1,
    @run_forever flag_platform 2 (one_task_world [Yield (VObj AfterMs (VInt 5))])
    = Raised QueueFull w1.
Proof.
  edestruct (@AfterMs_goes_to_lpq flag_platform 1
               (one_task_world [Yield (VObj AfterMs (VInt 5))])) as (_ & H).
  - vm_compute. reflexivity.
  - reflexivity.
  - vm_compute. reflexivity.
  - eexists. apply H; [vm_compute; discriminate | lia].
Defined.

(** X13, witness: the low-priority head is 100 ms overdue, the threshold is
    0, and the pass takes the head of the normal queue. *)
Lemma zero_threshold_disables_override_witness :
  exists w2, @select_pass flag_platform overdue_world
             = Done (Some (Entry 0 (VGen 2) (VTuple []))) w2 /\
             items (lpq (loop w2)) = [Entry 0 (VGen 1) (VTuple [])].
Proof.
  edestruct (@zero_threshold_disables_override flag_platform overdue_world overdue_world
               (Entry 0 (VGen 2) (VTuple [])) []) as (H & Hl & _).
  - reflexivity.
  - vm_compute. discriminate.
  - reflexivity.
  - vm_compute. discriminate.
  - eexists. split; [exact H | rewrite Hl; reflexivity].
Defined.

(** X14, witness: an entry due in 10 ms is picked with the clock at 10. *)
Lemma loop_sleeps_until_due_witness :
  exists w2, @pick flag_platform 2 delayed_world
             = Done (Picked (Entry 10 (VGen 0) (VTuple []))) w2 /\
             clock w2 = 10.
Proof.
  edestruct (@loop_sleeps_until_due flag_platform delayed_world
               (Entry 10 (VGen 0) (VTuple [])) []) as (_ & H).
  - vm_compute. discriminate.
  - reflexivity.
  - reflexivity.
  - reflexivity.
  - vm_compute. reflexivity.
  - eexists. split; [exact H | vm_compute; reflexivity].
Defined.

(** X15, witness: [sleep_ms(10)] on the fresh object. *)
Lemma awaitable_protocol_witness :
  Awaitable.__next__ (Awaitable.__iter__
                        (Awaitable.__call__ (Awaitable.__init__ SleepMs) (VInt 10)))
  = (inr (VObj SleepMs (VInt 10)), Awaitable.mk SleepMs VNone (VInt 10)).
Proof.
  apply (proj1 (@awaitable_protocol flag_platform (Awaitable.__init__ SleepMs) (VInt 10)
                  ltac:(discriminate))).
Defined.

(** X16, witness: [sleep(0.0019)]. *)
Lemma sleep_is_Sleep_witness :
  @dispatch flag_platform (Entry 0 (VGen 0) (VTuple []))
    (with_gen (@boot flag_platform 42 0 [Script []] false) 0 (sleep (VFloat f0_0019)))
  = @dispatch flag_platform (Entry 0 (VGen 0) (VTuple []))
    (with_gen (@boot flag_platform 42 0 [Script []] false) 0
              (Script [Yield (VObj Sleep (VFloat f0_0019))])).
Proof.
  apply (proj1 (@sleep_is_Sleep flag_platform (VFloat f0_0019) 0 0%nat
                  (@boot flag_platform 42 0 [Script []] false) ltac:(cbn; lia))).
Defined.

(** X17, witness: a queue of capacity 4 takes four entries and refuses the
    fifth. *)
Lemma nq_accepts_up_to_capacity_witness :
  exists w',
    @call_soon_times flag_platform 4 (VFun 2) (@boot flag_platform 4 0 [] false)
      = Done tt w' /\
    call_soon (VFun 2) [] w' = Raised QueueFull w'.
Proof.
  destruct (@nq_accepts_up_to_capacity flag_platform (VFun 2) 4
              (@boot flag_platform 4 0 [] false) ltac:(vm_compute; discriminate))
    as (_ & H).
  destruct (H ltac:(vm_compute; reflexivity)) as (w' & Hrun & Hfull).
  exists w'. split; [exact Hrun | apply Hfull].
Defined.

(** X18, witness: the wrapper of the sleep chain passes on [SleepMs(10)]. *)
Lemma run_and_stop_wrapper_witness :
  exists w',
    @next flag_platform (VGen 1)
      (@state_after flag_platform _ (_run_and_stop 0) (@boot flag_platform 42 0 sleep_chain false))
    = Done (VObj SleepMs (VInt 10)) w'.
Proof.
  destruct (@run_and_stop_wrapper flag_platform 1 0
              (@state_after flag_platform _ (_run_and_stop 0)
                 (@boot flag_platform 42 0 sleep_chain false)) eq_refl) as (H & _).
  eexists. apply H. reflexivity.
Defined.

(** X19, witness: [sleep_ms] scheduled as a task. *)
Lemma callback_runs_once_witness :
  @dispatch flag_platform (Entry 0 (VObj SleepMs VNone) (VTuple []))
    (@boot flag_platform 42 0 [] false)
  = Raised TypeError (@boot flag_platform 42 0 [] false).
Proof.
  apply (proj2 (@callback_runs_once flag_platform 0 0%nat []
                  (@boot flag_platform 42 0 [] false))).
  reflexivity.
Defined.
